(** * rdvp: bootstrap of the rendezvous-point node (go/cmd/rdvp/main.go)

    A shallow embedding of the helpers and command bodies of [main.go]
    together with the contracts of the libraries they call, and the
    properties of the bootstrap layer stated over it.

    Conventions.
    - A Go [string] is a byte sequence: it is a [string] of [ascii] here,
      and a [[]byte] is a [list ascii].
    - A Go function returning [(v, err)] whose caller looks at [v] only when
      [err == nil] is a function into [Result]; [parseAddrs], which returns
      its named results as they stand, keeps both components.
    - Library functions that [main.go] calls are Section variables; the
      modules [Base64], [Net], [Multiaddr] and [Crypto] give executable
      models of the parts of those libraries that the evaluations below
      run through. *)

From Stdlib Require Import ZArith NArith Ascii String List Lia Bool.
From stdpp Require Import base list strings gmap.
From coqutil Require Import Z.bitblast.

Local Open Scope Z_scope.
Local Open Scope string_scope.
Local Open Scope list_scope.

(** ** Errors *)

(** Modelled from the spec: go/pkg/errcode is not among the sources.  "Every
    failure from a leaf component is wrapped with a stable categorical tag
    and returned to the caller": an [ErrCode] is such a tag.  [main.go] only
    ever uses the code [errcode.TODO]. *)
Inductive ErrCode :=
| ErrCode_TODO
| ErrCode_other (code : Z).

(** The error values that can flow through [main.go]. *)
Inductive error :=
| Canceled                                  (* context.Canceled *)
| DeadlineExceeded                          (* context.DeadlineExceeded *)
| ErrHelp                                   (* flag.ErrHelp *)
| SignalError (sig : Z)                     (* run.SignalError *)
| CorruptInputError                         (* base64.CorruptInputError *)
| AddrError (why addr : string)             (* *net.AddrError *)
| MultiaddrError (s why : string)           (* fmt.Errorf of go-multiaddr *)
| KeyError (why : string)                   (* errors of go-libp2p-core/crypto *)
| LibraryError (why : string)               (* any other library failure *)
| WithCode (code : ErrCode) (inner : error) (* errcode.ErrCode.Wrap *).

Inductive Result (A : Type) :=
| Ok (a : A)
| Err (e : error).
Arguments Ok {A} a.
Arguments Err {A} e.

Definition is_Ok {A} (r : Result A) : bool :=
  match r with Ok _ => true | Err _ => false end.

Definition to_option {A} (r : Result A) : option A :=
  match r with Ok a => Some a | Err _ => None end.

Definition error_of {A} (r : Result A) : option error :=
  match r with Ok _ => None | Err e => Some e end.

#[global] Instance ErrCode_eq_dec : EqDecision ErrCode.
Proof. solve_decision. Defined.

#[global] Instance error_eq_dec : EqDecision error.
Proof. solve_decision. Defined.

(** Modelled from the spec: [code.Wrap(inner)] of go/pkg/errcode, the error
    [inner] under the tag [code]. *)
Definition Wrap (code : ErrCode) (inner : error) : error := WithCode code inner.

(** The categorical tag an error carries, if any. *)
Definition tag (e : error) : option ErrCode :=
  match e with WithCode c _ => Some c | _ => None end.

(** ** encoding/base64, [StdEncoding] *)

Module Base64.

Definition encodeStd : string :=
  "ABCDEFGHIJKLMNOPQRSTUVWXYZabcdefghijklmnopqrstuvwxyz0123456789+/".

Definition padChar : ascii := "="%char.

Definition u (b : ascii) : Z := Z.of_N (N_of_ascii b).

(** [byte(v)]: conversion of a uint to a byte keeps the low 8 bits. *)
Definition byte (v : Z) : ascii := ascii_of_N (Z.to_N (Z.land v 255)).

(** [enc.encode[i]] *)
Definition encode (i : Z) : ascii :=
  match String.get (Z.to_nat i) encodeStd with
  | Some c => c
  | None => "000"%char
  end.

Fixpoint index_of (c : ascii) (s : string) (i : Z) : option Z :=
  match s with
  | EmptyString => None
  | String d s' => if Ascii.eqb c d then Some i else index_of c s' (i + 1)
  end.

(** [enc.decodeMap[c]], with [None] for the entries that hold 0xFF. *)
Definition decodeMap (c : ascii) : option Z := index_of c encodeStd 0.

Fixpoint Encode (src : list ascii) : list ascii :=
  match src with
  | [] => []
  | b0 :: b1 :: b2 :: rest =>
      let val := Z.lor (Z.lor (Z.shiftl (u b0) 16) (Z.shiftl (u b1) 8)) (u b2) in
      encode (Z.land (Z.shiftr val 18) 63)
        :: encode (Z.land (Z.shiftr val 12) 63)
        :: encode (Z.land (Z.shiftr val 6) 63)
        :: encode (Z.land val 63)
        :: Encode rest
  | [b0; b1] =>
      let val := Z.lor (Z.shiftl (u b0) 16) (Z.shiftl (u b1) 8) in
      [encode (Z.land (Z.shiftr val 18) 63);
       encode (Z.land (Z.shiftr val 12) 63);
       encode (Z.land (Z.shiftr val 6) 63);
       padChar]
  | [b0] =>
      let val := Z.shiftl (u b0) 16 in
      [encode (Z.land (Z.shiftr val 18) 63);
       encode (Z.land (Z.shiftr val 12) 63);
       padChar; padChar]
  end.

Definition EncodeToString (src : list ascii) : string :=
  string_of_list_ascii (Encode src).

Definition is_newline (c : ascii) : bool :=
  Ascii.eqb c "010"%char || Ascii.eqb c "013"%char.

(** The value of a full quantum and its three bytes. *)
Definition quantum (d0 d1 d2 d3 : Z) : list ascii :=
  let val := Z.lor (Z.lor (Z.lor (Z.shiftl d0 18) (Z.shiftl d1 12))
                      (Z.shiftl d2 6)) d3 in
  [byte (Z.shiftr val 16); byte (Z.shiftr val 8); byte val].

(** Decoding of an input from which line breaks have been dropped: whole
    quanta of four characters, the last of which may be padded; anything
    after the padding, a short quantum or a character outside the alphabet
    is corrupt input. *)
Fixpoint decodeQuanta (src : list ascii) : Result (list ascii) :=
  match src with
  | [] => Ok []
  | c0 :: c1 :: c2 :: c3 :: rest =>
      match decodeMap c0, decodeMap c1 with
      | Some d0, Some d1 =>
          match decodeMap c2, decodeMap c3 with
          | Some d2, Some d3 =>
              match decodeQuanta rest with
              | Ok out => Ok (quantum d0 d1 d2 d3 ++ out)%list
              | Err e => Err e
              end
          | Some d2, None =>
              if Ascii.eqb c3 padChar && bool_decide (rest = [])
              then Ok (take 2 (quantum d0 d1 d2 0))
              else Err CorruptInputError
          | None, _ =>
              if Ascii.eqb c2 padChar && Ascii.eqb c3 padChar
                 && bool_decide (rest = [])
              then Ok (take 1 (quantum d0 d1 0 0))
              else Err CorruptInputError
          end
      | _, _ => Err CorruptInputError
      end
  | _ => Err CorruptInputError
  end.

(** [StdEncoding.DecodeString]: '\r' and '\n' are ignored wherever they
    stand.  The offset carried by [CorruptInputError] is not modelled. *)
Definition DecodeString (s : string) : Result (list ascii) :=
  decodeQuanta
    (List.filter (fun c => negb (is_newline c)) (list_ascii_of_string s)).

End Base64.


(** ** strings, strconv, fmt *)

Module Strings.

(** [strings.Split(s, sep)] for a separator of one byte. *)
Fixpoint Split (s : string) (sep : ascii) : list string :=
  match s with
  | EmptyString => [EmptyString]
  | String c s' =>
      if Ascii.eqb c sep then EmptyString :: Split s' sep
      else match Split s' sep with
           | hd :: tl => String c hd :: tl
           | [] => [String c EmptyString]
           end
  end.

(** [strings.TrimRight(s, cutset)] for a cutset of one byte. *)
Fixpoint TrimRight (s : string) (c : ascii) : string :=
  match s with
  | EmptyString => EmptyString
  | String d s' =>
      match TrimRight s' c with
      | EmptyString => if Ascii.eqb d c then EmptyString else String d EmptyString
      | t => String d t
      end
  end.

(** [strings.IndexByte] and [strings.LastIndexByte], [None] for -1. *)
Fixpoint IndexByte (s : string) (c : ascii) : option nat :=
  match s with
  | EmptyString => None
  | String d s' =>
      if Ascii.eqb d c then Some 0%nat
      else match IndexByte s' c with Some i => Some (S i) | None => None end
  end.

Fixpoint LastIndexByte (s : string) (c : ascii) : option nat :=
  match s with
  | EmptyString => None
  | String d s' =>
      match LastIndexByte s' c with
      | Some i => Some (S i)
      | None => if Ascii.eqb d c then Some 0%nat else None
      end
  end.

(** [s[a:b]] and [s[a:]] *)
Definition slice (s : string) (a b : nat) : string := substring a (b - a) s.
Definition slice_from (s : string) (a : nat) : string :=
  substring a (String.length s - a) s.

End Strings.

Module Strconv.

(** [strconv.ParseBool]: the value is [false] whenever the error is set. *)
Definition ParseBool (str : string) : bool * option error :=
  if bool_decide (str ∈ ["1"; "t"; "T"; "TRUE"; "true"; "True"])
  then (true, None)
  else if bool_decide (str ∈ ["0"; "f"; "F"; "FALSE"; "false"; "False"])
  then (false, None)
  else (false, Some (LibraryError "strconv.ParseBool: invalid syntax")).

Definition is_digit (c : ascii) : bool :=
  (48 <=? Z.of_N (N_of_ascii c))%Z && (Z.of_N (N_of_ascii c) <=? 57)%Z.

Definition digit (c : ascii) : Z := Z.of_N (N_of_ascii c) - 48.

Fixpoint decimal (s : string) (n : Z) : option Z :=
  match s with
  | EmptyString => Some n
  | String c s' => if is_digit c then decimal s' (n * 10 + digit c) else None
  end.

(** [strconv.Atoi] on a 64-bit platform: an optional sign, at least one
    digit and nothing else, the value within the range of [int]. *)
Definition Atoi (s : string) : Result Z :=
  let syntax := Err (LibraryError "strconv.Atoi: invalid syntax") in
  let checked (neg : bool) (ds : string) :=
    match ds with
    | EmptyString => syntax
    | _ =>
        match decimal ds 0 with
        | None => syntax
        | Some n =>
            let v := if neg then - n else n in
            if (- 2 ^ 63 <=? v)%Z && (v <? 2 ^ 63)%Z then Ok v
            else Err (LibraryError "strconv.Atoi: value out of range")
        end
    end in
  match s with
  | String "-" ds => checked true ds
  | String "+" ds => checked false ds
  | _ => checked false s
  end.

End Strconv.

(** [fmt.Sprintf("/ip4/%s/tcp/%s/", host, port)] *)
Definition Sprintf_ip4_tcp (host port : string) : string :=
  "/ip4/" +:+ host +:+ "/tcp/" +:+ port +:+ "/".

(** ** net *)

Module Net.
Import Strings.

Definition addrErr (addr why : string) : Result (string * string) :=
  Err (AddrError why addr).

Definition missingPort : string := "missing port in address".
Definition tooManyColons : string := "too many colons in address".

Definition has_byte (s : string) (c : ascii) : bool :=
  match IndexByte s c with Some _ => true | None => false end.

(** [net.SplitHostPort] *)
Definition SplitHostPort (hostport : string) : Result (string * string) :=
  match LastIndexByte hostport ":" with
  | None => addrErr hostport missingPort
  | Some i =>
      let finish (host : string) (j k : nat) :=
        if has_byte (slice_from hostport j) "["
        then addrErr hostport "unexpected '[' in address"
        else if has_byte (slice_from hostport k) "]"
        then addrErr hostport "unexpected ']' in address"
        else Ok (host, slice_from hostport (i + 1)) in
      if bool_decide (String.get 0 hostport = Some "["%char) then
        match IndexByte hostport "]" with
        | None => addrErr hostport "missing ']' in address"
        | Some end_ =>
            if (end_ + 1 =? String.length hostport)%nat
            then addrErr hostport missingPort
            else if (end_ + 1 =? i)%nat
            then finish (slice hostport 1 end_) 1%nat (end_ + 1)%nat
            else if bool_decide (String.get (end_ + 1) hostport = Some ":"%char)
            then addrErr hostport tooManyColons
            else addrErr hostport missingPort
        end
      else
        let host := slice hostport 0 i in
        if has_byte host ":" then addrErr hostport tooManyColons
        else finish host 0%nat 0%nat
  end.

Definition big : Z := 16777215.

(** [dtoi]: the decimal number at the start of [s] and what follows it. *)
Fixpoint dtoi (s : string) (n : Z) (seen : bool) : option (Z * string) :=
  match s with
  | EmptyString => if seen then Some (n, EmptyString) else None
  | String c s' =>
      if Strconv.is_digit c then
        let n' := n * 10 + Strconv.digit c in
        if (n' >=? big)%Z then None else dtoi s' n' true
      else if seen then Some (n, s) else None
  end.

Definition octet (s : string) : option (Z * string) :=
  match dtoi s 0 false with
  | Some (n, s') => if (n >? 255)%Z then None else Some (n, s')
  | None => None
  end.

Definition dot (s : string) : option string :=
  match s with
  | String "." s' => Some s'
  | _ => None
  end.

(** [parseIPv4], as it was before Go 1.17 (leading zeros are read as
    decimal digits). *)
Definition parseIPv4 (s : string) : option (Z * Z * Z * Z) :=
  match octet s with
  | Some (a, s) =>
      match option_bind _ _ octet (dot s) with
      | Some (b, s) =>
          match option_bind _ _ octet (dot s) with
          | Some (c, s) =>
              match option_bind _ _ octet (dot s) with
              | Some (d, EmptyString) => Some (a, b, c, d)
              | _ => None
              end
          | None => None
          end
      | None => None
      end
  | None => None
  end.

(** The first of '.' and ':' in [s] decides between the IPv4 and the IPv6
    reading. *)
Fixpoint first_sep (s : string) : option ascii :=
  match s with
  | EmptyString => None
  | String c s' =>
      if Ascii.eqb c "." || Ascii.eqb c ":" then Some c else first_sep s'
  end.

(** [net.ParseIP(s).To4()].  Text that takes the IPv6 reading gives [nil]
    here: the IPv4-mapped IPv6 addresses, which [To4] would keep, are not
    modelled. *)
Definition ParseIP_To4 (s : string) : option (Z * Z * Z * Z) :=
  match first_sep s with
  | Some "."%char => parseIPv4 s
  | _ => None
  end.

End Net.

(** ** go-multiaddr: the textual form, for the protocols ip4, tcp, udp, quic *)

Module Multiaddr.
Import Strings.

Inductive Component :=
| P_ip4 (a b c d : Z)     (* code 4, 32 bits *)
| P_tcp (port : Z)        (* code 6, 16 bits *)
| P_udp (port : Z)        (* code 273, 16 bits *)
| P_quic.                 (* code 460, no value *)

(** A multiaddr is its sequence of components. *)
Definition Multiaddr : Type := list Component.

Inductive Protocol := Proto_ip4 | Proto_tcp | Proto_udp | Proto_quic.

(** [ProtocolWithName], over the part of the protocol table modelled
    here; the names of the other protocols of the table are unknown to
    it. *)
Definition ProtocolWithName (name : string) : option Protocol :=
  if String.eqb name "ip4" then Some Proto_ip4
  else if String.eqb name "tcp" then Some Proto_tcp
  else if String.eqb name "udp" then Some Proto_udp
  else if String.eqb name "quic" then Some Proto_quic
  else None.

(** [p.Size] in bits. *)
Definition Size (p : Protocol) : Z :=
  match p with
  | Proto_ip4 => 32
  | Proto_tcp | Proto_udp => 16
  | Proto_quic => 0
  end.

Definition Name (p : Protocol) : string :=
  match p with
  | Proto_ip4 => "ip4" | Proto_tcp => "tcp"
  | Proto_udp => "udp" | Proto_quic => "quic"
  end.

(** [portStB]: [uint16(i)] of the integer read, refused from 65536 on. *)
Definition portStB (s : string) : Result Z :=
  match Strconv.Atoi s with
  | Err _ => Err (LibraryError "failed to parse port addr")
  | Ok i =>
      if (i >=? 65536)%Z
      then Err (LibraryError "failed to parse port addr: greater than 65536")
      else Ok (i mod 65536)
  end.

(** [p.Transcoder.StringToBytes] *)
Definition StringToBytes (p : Protocol) (v : string) : Result Component :=
  match p with
  | Proto_ip4 =>
      match Net.ParseIP_To4 v with
      | Some (a, b, c, d) => Ok (P_ip4 a b c d)
      | None => Err (LibraryError "failed to parse ip4 addr")
      end
  | Proto_tcp =>
      match portStB v with Ok n => Ok (P_tcp n) | Err e => Err e end
  | Proto_udp =>
      match portStB v with Ok n => Ok (P_udp n) | Err e => Err e end
  | Proto_quic => Ok P_quic
  end.

(** The loop of [stringToBytes] over the segments [sp] of [s]. *)
Fixpoint components (s : string) (sp : list string) : Result Multiaddr :=
  match sp with
  | [] => Ok []
  | name :: sp =>
      match ProtocolWithName name with
      | None => Err (MultiaddrError s ("unknown protocol " +:+ name))
      | Some p =>
          if (Size p =? 0)%Z then
            match components s sp with
            | Ok m => Ok (P_quic :: m)
            | Err e => Err e
            end
          else
            match sp with
            | [] => Err (MultiaddrError s "unexpected end of multiaddr")
            | v :: sp =>
                match StringToBytes p v with
                | Err _ =>
                    Err (MultiaddrError s
                           ("invalid value " +:+ v +:+ " for protocol "
                            +:+ Name p))
                | Ok c =>
                    match components s sp with
                    | Ok m => Ok (c :: m)
                    | Err e => Err e
                    end
                end
            end
      end
  end.

(** [ma.NewMultiaddr]: trailing slashes are dropped, the text must begin
    with a slash and name at least one protocol. *)
Definition NewMultiaddr (s : string) : Result Multiaddr :=
  let s := TrimRight s "/" in
  match Split s "/" with
  | EmptyString :: sp =>
      match sp with
      | [] => Err (MultiaddrError s "empty multiaddr")
      | _ => components s sp
      end
  | _ => Err (MultiaddrError s "must begin with /")
  end.

End Multiaddr.

(** ** go-libp2p-core/crypto: the key envelope, for Ed25519 keys *)

Inductive KeyType := RSA | Ed25519 | Secp256k1 | ECDSA.

#[global] Instance KeyType_eq_dec : EqDecision KeyType.
Proof. solve_decision. Defined.

Module Crypto.

(** An Ed25519 private key: the 64 bytes of [ed25519.PrivateKey]. *)
Record Ed25519PrivateKey := {
  k : list ascii;
  k_size : Is_true (bool_decide (length k = 64%nat));
}.

Definition PrivKey : Type := Ed25519PrivateKey.

(** The [pb.PrivateKey] message holding an Ed25519 key: field 1 (Type,
    varint) is 1, field 2 (Data, length-delimited) has 64 bytes. *)
Definition envelope : list ascii :=
  ["008"; "001"; "018"; "064"]%char.

(** [MarshalPrivateKey] *)
Definition MarshalPrivateKey (priv : PrivKey) : Result (list ascii) :=
  Ok (envelope ++ k priv)%list.

(** [UnmarshalPrivateKey].  This model knows Ed25519 keys alone, in the
    form that [MarshalPrivateKey] writes: it refuses every other input, among
    them the messages that the library reads as keys of another type. *)
Definition UnmarshalPrivateKey (data : list ascii) : Result PrivKey :=
  if bool_decide (take 4 data = envelope) then
    match decide (Is_true (bool_decide (length (drop 4 data) = 64%nat))) with
    | left H => Ok {| k := drop 4 data; k_size := H |}
    | right _ => Err (KeyError "expected ed25519 data size to be 64 or 96")
    end
  else Err (KeyError "proto: cannot parse pb.PrivateKey").

End Crypto.

(** ** context, oklog/run, zap *)

(** The state of a cancellable context and [ctx.Err()]. *)
Inductive CtxState := CtxActive | CtxCanceled | CtxDeadlineExceeded.

Definition ctx_Err (c : CtxState) : option error :=
  match c with
  | CtxActive => None
  | CtxCanceled => Some Canceled
  | CtxDeadlineExceeded => Some DeadlineExceeded
  end.

(** [run.Group.Run]: every actor runs concurrently; the result is the value
    returned by the first actor that returns, after which all actors are
    interrupted and waited for.  [returns] lists the values the actors
    return, in the order in which they return. *)
Definition Group_Run (returns : list (option error)) : option error :=
  match returns with
  | [] => None
  | first :: _ => first
  end.

Inductive Level := DebugLevel | InfoLevel | WarnLevel | ErrorLevel
                 | DPanicLevel | PanicLevel | FatalLevel.

Inductive LevelEncoder := LowercaseLevelEncoder | CapitalLevelEncoder
                        | CapitalColorLevelEncoder.

(** The fields of [zap.Config] that [newLogger] sets or that its two
    constructors set differently. *)
Record Config := {
  Level_ : Level;
  Development : bool;
  DisableStacktrace : bool;
  Encoding : string;
  EncodeLevel : LevelEncoder;
  OutputPaths : list string;
}.

Definition NewProductionConfig : Config := {|
  Level_ := InfoLevel; Development := false; DisableStacktrace := false;
  Encoding := "json"; EncodeLevel := LowercaseLevelEncoder;
  OutputPaths := ["stderr"];
|}.

Definition NewDevelopmentConfig : Config := {|
  Level_ := DebugLevel; Development := true; DisableStacktrace := false;
  Encoding := "console"; EncodeLevel := CapitalLevelEncoder;
  OutputPaths := ["stderr"];
|}.

Definition SetLevel (l : Level) (c : Config) : Config := {|
  Level_ := l; Development := Development c;
  DisableStacktrace := DisableStacktrace c; Encoding := Encoding c;
  EncodeLevel := EncodeLevel c; OutputPaths := OutputPaths c;
|}.

(** A logger is known by the configuration it was built from. *)
Record Logger := { logger_config : Config }.

(** ** The process: environment, entropy and the calls made *)

Inductive Event :=
| EvGetenv (key : string)                     (* os.Getenv *)
| EvSeed                                      (* mrand.Seed(srand.Secure()) *)
| EvSetDebugLogging                           (* ipfs_log.SetDebugLogging *)
| EvReplaceGlobals (l : Logger)               (* zap.ReplaceGlobals *)
| EvDecodeString (s : string)                 (* base64 DecodeString *)
| EvUnmarshalPrivateKey (data : list ascii)
| EvGenerateKeyPair (typ : KeyType) (bits : Z)
| EvMarshalPrivateKey
| EvPrintln (s : string)                      (* fmt.Println *)
| EvNewHost                                   (* libp2p.New *)
| EvLogHostInfo
| EvCloseHost                                 (* host.Close *)
| EvOpenDB (urn : string)
| EvCloseDB                                   (* db.Close *)
| EvNewRendezvousService
| EvCancel.                                   (* cancel() of the command *)

#[global] Instance Level_eq_dec : EqDecision Level.
Proof. solve_decision. Defined.

(** ** main.go *)

Module Rdvp.

(** [flag.String(name, value, usage)]: the default [value] unless the flag
    is set, on the command line or by its RDVP_ environment variable. *)
Definition flag_String (value : string) (set : option string) : string :=
  match set with Some v => v | None => value end.

Definition serveFlagsURN : option string -> string :=
  flag_String ":memory:".
Definition serveFlagsListeners : option string -> string :=
  flag_String "/ip4/0.0.0.0/tcp/4040,/ip4/0.0.0.0/udp/4141/quic".
Definition serveFlagsPK : option string -> string :=
  flag_String "".

Section Main.

(** go-multiaddr *)
Context {Multiaddr : Type}.
Context (NewMultiaddr : string -> Result Multiaddr).

(** go-libp2p-core/crypto; key generation draws on [crand.Reader]. *)
Context {PrivKey Entropy : Type}.
Context (UnmarshalPrivateKey : list ascii -> Result PrivKey).
Context (MarshalPrivateKey : PrivKey -> Result (list ascii)).
Context (GenerateKeyPairWithReader :
           KeyType -> Z -> Entropy -> Result PrivKey * Entropy).

(** go-libp2p, go-libp2p-rendezvous/db/sqlite *)
Context {Host DB : Type}.
Context (libp2p_New : list (option Multiaddr) -> PrivKey -> Result Host).
Context (OpenDB : string -> Result DB).

(** zap: what opening the output paths of a configuration gives. *)
Context (openSinks : list string -> option error).

Record World := {
  env : gmap string string;
  entropy : Entropy;
  trace : list Event;
}.

Definition emit (ev : Event) (w : World) : World :=
  {| env := env w; entropy := entropy w; trace := trace w ++ [ev] |}.

(** Commands run in the process and return a value or an error. *)
Definition M (A : Type) : Type := World -> Result A * World.

Definition ret {A} (a : A) : M A := fun w => (Ok a, w).
Definition fail {A} (e : error) : M A := fun w => (Err e, w).
Definition bind {A B} (m : M A) (f : A -> M B) : M B :=
  fun w => match m w with
           | (Ok a, w') => f a w'
           | (Err e, w') => (Err e, w')
           end.

Notation "'let*' x ':=' m 'in' f" := (bind m (fun x => f))
  (at level 10, x pattern, m at level 100, f at level 200).

(** A library call: it is recorded and gives its result. *)
Definition call {A} (ev : Event) (r : Result A) : M A :=
  fun w => (r, emit ev w).

(** [if err != nil { return errcode.TODO.Wrap(err) }] *)
Definition orTODO {A} (m : M A) : M A :=
  fun w => match m w with
           | (Ok a, w') => (Ok a, w')
           | (Err e, w') => (Err (Wrap ErrCode_TODO e), w')
           end.

(** [defer f()]: [f] runs when the rest of the function has returned. *)
Definition defer {A} (ev : Event) (rest : M A) : M A :=
  fun w => let '(r, w') := rest w in (r, emit ev w').

(** *** Helpers *)

(** The loop of [parseAddrs]: [i] is the index of the head of [addrs],
    [maddrs] and [err] are the named results. *)
Fixpoint parseAddrs_loop (addrs : list string) (i : nat)
    (maddrs : list (option Multiaddr)) (err : option error)
  : list (option Multiaddr) * option error :=
  match addrs with
  | [] => (maddrs, err)
  | addr :: rest =>
      let r := NewMultiaddr addr in
      let maddrs := <[i := to_option r]> maddrs in
      match error_of r with
      | Some err =>
          (* try to get a tcp multiaddr from host:port *)
          match Net.SplitHostPort addr with
          | Err serr => (maddrs, Some err)
          | Ok (host, port) =>
              let host := if String.eqb host "" then "127.0.0.1" else host in
              let addr := Sprintf_ip4_tcp host port in
              let r := NewMultiaddr addr in
              parseAddrs_loop rest (S i) (<[i := to_option r]> maddrs)
                              (error_of r)
          end
      | None => parseAddrs_loop rest (S i) maddrs None
      end
  end.

Definition parseAddrs (addrs : list string)
  : list (option Multiaddr) * option error :=
  parseAddrs_loop addrs 0 (replicate (length addrs) None) None.

(** [os.Getenv]: the value of the variable, empty when it is not set. *)
Definition Getenv (key : string) (w : World) : string * World :=
  (default "" (env w !! key), emit (EvGetenv key) w).

Definition parseBoolFromEnv (key : string) (w : World) : bool * World :=
  let '(v, w) := Getenv key w in
  let '(b, _) := Strconv.ParseBool v in
  (b, w).

(** [config.Build()] *)
Definition Build (config : Config) : Result Logger :=
  match openSinks (OutputPaths config) with
  | Some e => Err e
  | None => Ok {| logger_config := config |}
  end.

Definition newLogger (debug : bool) (logfile : string) : M Logger :=
  fun w =>
    let '(berty, w) := parseBoolFromEnv "BERTY_DEBUG" w in
    let bertyDebug := berty || debug in
    let '(libp2pDebug, w) := parseBoolFromEnv "LIBP2P_DEBUG" w in
    let '(orbitdbDebug, w) := parseBoolFromEnv "ORBITDB_DEBUG" w in
    let isDebugEnabled := bertyDebug || orbitdbDebug || libp2pDebug in
    (* setup zap config *)
    let config :=
      if negb (String.eqb logfile "") then
        {| Level_ := Level_ NewProductionConfig;
           Development := Development NewProductionConfig;
           DisableStacktrace := DisableStacktrace NewProductionConfig;
           Encoding := Encoding NewProductionConfig;
           EncodeLevel := EncodeLevel NewProductionConfig;
           OutputPaths := [logfile] |}
      else
        {| Level_ := Level_ NewDevelopmentConfig;
           Development := Development NewDevelopmentConfig;
           DisableStacktrace := true;
           Encoding := Encoding NewDevelopmentConfig;
           EncodeLevel := CapitalColorLevelEncoder;
           OutputPaths := OutputPaths NewDevelopmentConfig |} in
    let config :=
      if isDebugEnabled then SetLevel DebugLevel config
      else SetLevel InfoLevel config in
    match Build config with
    | Err e => (Err (Wrap ErrCode_TODO e), w)
    | Ok logger =>
        let w := if libp2pDebug then emit EvSetDebugLogging w else w in
        let w := if orbitdbDebug then emit (EvReplaceGlobals logger) w
                 else w in
        (Ok logger, w)
    end.

(** *** main *)

Definition globalPreRun (globalDebug : bool) (globalLogToFile : string)
  : M Logger :=
  fun w => newLogger globalDebug globalLogToFile (emit EvSeed w).

Definition GenerateKeyPair (typ : KeyType) (bits : Z) : M PrivKey :=
  fun w =>
    let '(r, s) := GenerateKeyPairWithReader typ bits (entropy w) in
    (r, emit (EvGenerateKeyPair typ bits)
          {| env := env w; entropy := s; trace := trace w |}).

(** serve, lines 89-96: the key given with [-pk]. *)
Definition load (pk : string) : M PrivKey :=
  let* kBytes := orTODO (call (EvDecodeString pk) (Base64.DecodeString pk)) in
  orTODO (call (EvUnmarshalPrivateKey kBytes) (UnmarshalPrivateKey kBytes)).

(** serve, line 98, and genkey, line 148: a new key. *)
Definition generate : M PrivKey :=
  orTODO (GenerateKeyPair RSA 2048).

(** serve, lines 86-102: load existing or generate new identity. *)
Definition identity (pk : string) : M PrivKey :=
  if negb (String.eqb pk "") then load pk else generate.

(** genkey, lines 153-158: the key as the text that is printed. *)
Definition serialize (priv : PrivKey) : M string :=
  let* kBytes := orTODO (call EvMarshalPrivateKey (MarshalPrivateKey priv)) in
  ret (Base64.EncodeToString kBytes).

(** The [Exec] of serve.  [done] is the state in which the context of the
    command is found once [<-ctx.Done()] has returned. *)
Definition serve_Exec (globalDebug : bool) (globalLogToFile : string)
    (db l pk : option string) (done : CtxState) : M unit :=
  let* logger := orTODO (globalPreRun globalDebug globalLogToFile) in
  defer EvCancel (
    let laddrs := Strings.Split (serveFlagsListeners l) "," in
    let '(listeners, err) := parseAddrs laddrs in
    match err with
    | Some err => fail (Wrap ErrCode_TODO err)
    | None =>
        let* priv := identity (serveFlagsPK pk) in
        (* init p2p host *)
        let* host := orTODO (call EvNewHost (libp2p_New listeners priv)) in
        defer EvCloseHost (
          let* _ := call EvLogHostInfo (Ok tt) in
          let* d := orTODO (call (EvOpenDB (serveFlagsURN db))
                                 (OpenDB (serveFlagsURN db))) in
          defer EvCloseDB (
            (* start service *)
            let* _ := call EvNewRendezvousService (Ok tt) in
            match ctx_Err done with
            | Some err => fail (Wrap ErrCode_TODO err)
            | None => ret tt
            end))
    end).

(** The [Exec] of genkey. *)
Definition genkey_Exec : M unit :=
  let* priv := generate in
  let* s := serialize priv in
  call (EvPrintln s) (Ok tt).

(** How [main] ends: it returns, or [log.Fatal] prints the error and
    exits with status 1. *)
Inductive Exit :=
| Returns
| Fatal (err : error).

Definition exit_status (x : Exit) : Z :=
  match x with Returns => 0 | Fatal _ => 1 end.

(** main, lines 181-184: the process is run, and its error, unless it is
    [context.Canceled], is fatal.  [returns] lists what the actors of the
    process return, in the order in which they return. *)
Definition main (returns : list (option error)) : Exit :=
  match Group_Run returns with
  | Some err => if bool_decide (err ≠ Canceled) then Fatal err else Returns
  | None => Returns
  end.

End Main.
End Rdvp.

Export Rdvp.

(** ** The vocabulary of the properties *)

Section Resolver.
Context {Multiaddr : Type} (NewMultiaddr : string -> Result Multiaddr).

(** The text the fallback parses for a host and a port. *)
Definition rewritten (host port : string) : string :=
  Sprintf_ip4_tcp (if String.eqb host "" then "127.0.0.1" else host) port.

(** The second attempt: the address as a host:port pair. *)
Definition fallback (addr : string) : Result Multiaddr :=
  match Net.SplitHostPort addr with
  | Ok (host, port) => NewMultiaddr (rewritten host port)
  | Err e => Err e
  end.

(** The two attempts on one address.  When the address does not split,
    the error is the one of the first attempt. *)
Definition resolve (addr : string) : Result Multiaddr :=
  match NewMultiaddr addr with
  | Ok m => Ok m
  | Err e =>
      match Net.SplitHostPort addr with
      | Ok _ => fallback addr
      | Err _ => Err e
      end
  end.

(** An address is well formed when one of the two attempts succeeds, and
    malformed when both fail. *)
Definition wellformed (addr : string) : bool :=
  is_Ok (NewMultiaddr addr) || is_Ok (fallback addr).

Definition malformed (addr : string) : bool := negb (wellformed addr).

(** The addresses at which the loop of [parseAddrs] returns at once:
    those that neither parse nor split. *)
Definition unsplittable (addr : string) : bool :=
  negb (is_Ok (NewMultiaddr addr)) && negb (is_Ok (Net.SplitHostPort addr)).

(** The addresses that the loop goes through: all of them up to the first
    unsplittable one, included. *)
Fixpoint visited (addrs : list string) : list string :=
  match addrs with
  | [] => []
  | a :: rest => if unsplittable a then [a] else a :: visited rest
  end.

End Resolver.

(** The values for which [strconv.ParseBool] gives [true]. *)
Definition truthy (v : string) : Prop :=
  v ∈ ["1"; "t"; "T"; "TRUE"; "true"; "True"].

(** The environment switches of the logger. *)
Definition debug_switches : list string :=
  ["BERTY_DEBUG"; "LIBP2P_DEBUG"; "ORBITDB_DEBUG"].

(** The keys looked up in the environment, in order. *)
Definition consulted (t : list Event) : list string :=
  omap (fun ev => match ev with EvGetenv key => Some key | _ => None end) t.



Definition is_generate (ev : Event) : bool :=
  match ev with EvGenerateKeyPair _ _ => true | _ => false end.

Definition is_decode (ev : Event) : bool :=
  match ev with EvDecodeString _ => true | _ => false end.

#[global] Instance truthy_dec v : Decision (truthy v).
Proof. unfold truthy. apply _. Defined.

(** The two ways in which the text of a key is malformed. *)
Definition undecodable (pk : string) : Prop :=
  is_Ok (Base64.DecodeString pk) = false.

Definition not_a_key {PrivKey : Type}
    (UnmarshalPrivateKey : list ascii -> Result PrivKey) (pk : string) : Prop :=
  exists kBytes, Base64.DecodeString pk = Ok kBytes /\
                 is_Ok (UnmarshalPrivateKey kBytes) = false.

(** The lines written on the standard output, in order. *)
Definition printed (t : list Event) : list string :=
  omap (fun ev => match ev with EvPrintln s => Some s | _ => None end) t.

(** The calls by which serve gives back what it holds. *)
Definition is_release (ev : Event) : bool :=
  match ev with
  | EvCloseHost | EvCloseDB | EvCancel => true
  | _ => false
  end.

(** The calls about the host, the database and the service, as opposed to
    those that set up the logger and get the key. *)
Definition is_resource (ev : Event) : bool :=
  match ev with
  | EvNewHost | EvLogHostInfo | EvCloseHost | EvOpenDB _ | EvCloseDB
  | EvNewRendezvousService | EvCancel => true
  | _ => false
  end.

(** *** logHostInfo *)

(** A [zapcore.Field] as [logHostInfo] makes them. *)
Inductive Field {Multiaddr : Type} :=
| zap_String (key val : string)
| zap_Stringer (key : string) (val : Multiaddr).
Arguments Field : clear implicits.

Section LogHostInfo.
Context {ID Multiaddr : Type}.

(** [peer.ID.String] and [peer.AddrInfoToP2pAddrs] *)
Context (ID_String : ID -> string).
Context (AddrInfoToP2pAddrs : ID -> list Multiaddr -> Result (list Multiaddr)).

(** The loop of [logHostInfo]: one field is appended for each address. *)
Fixpoint logHostInfo_loop (maddrs : list Multiaddr)
    (fields : list (Field Multiaddr)) : list (Field Multiaddr) :=
  match maddrs with
  | [] => fields
  | maddr :: rest =>
      logHostInfo_loop rest (fields ++ [zap_Stringer "maddr" maddr])
  end.

(** [logHostInfo], for a host with the given ID and addresses: the message
    and the fields of the one entry it logs at the info level. *)
Definition logHostInfo (host_ID : ID) (host_Addrs : list Multiaddr)
  : string * list (Field Multiaddr) :=
  (* print peer addrs *)
  let fields := [zap_String "host ID (local)" (ID_String host_ID)] in
  let fields :=
    match AddrInfoToP2pAddrs host_ID host_Addrs with
    | Ok maddrs => logHostInfo_loop maddrs fields
    | Err _ => fields
    end in
  ("host started", fields).

End LogHostInfo.

(** Whether an environment switch is set to a true value. *)
Definition switch_on {Entropy : Type} (w : World (Entropy := Entropy))
    (key : string) : bool :=
  bool_decide (truthy (default "" (env w !! key))).

(** A reader of entropy that has one key to give, for running the commands
    on the model of the key library. *)
Definition one_key (k : Crypto.PrivKey) (typ : KeyType) (bits : Z) (e : unit)
  : Result Crypto.PrivKey * unit :=
  (Ok k, e).

(** *** The process under an interrupt *)

(** What ends the wait of the actor made by [run.SignalHandler]. *)
Inductive Wake :=
| Signal (sig : Z)
| ContextDone (c : CtxState).

(** [execute] of [run.SignalHandler(ctx, signals...)]: the actor "terminates
    with SignalError when the process receives one of the provided signals,
    or the parent context is canceled", and then with [ctx.Err()]. *)
Definition SignalHandler_execute (wake : Wake) : option error :=
  match wake with
  | Signal sig => Some (SignalError sig)
  | ContextDone c => ctx_Err c
  end.

(** [os.Interrupt], that is SIGINT. *)
Definition os_Interrupt : Z := 2.

(** main, lines 60-65 and 174-184, when a signal arrives while the command
    runs.  The process has two actors, the signal handler and the root
    command.  The signal handler returns first; the interrupt functions are
    then called, that of the root command cancels the context (l.177-179),
    and the command returns what it returns with its context cancelled. *)
Definition main_interrupted (sig : Z) (command : CtxState -> option error)
  : Exit :=
  main [SignalHandler_execute (Signal sig); command CtxCanceled].

(** * Properties *)

(** ** base64: decoding undoes encoding *)

Section Base64Facts.
Import Base64.

Lemma u_range b : 0 <= u b < 256.
Proof.
  unfold u. pose proof (N_ascii_bounded b). lia.
Qed.

Lemma byte_u b : byte (u b) = b.
Proof.
  unfold byte.
  replace (Z.land (u b) 255) with (u b).
  - unfold u. rewrite N2Z.id. apply ascii_N_embedding.
  - pose proof (u_range b) as Hb. change 255 with (Z.ones 8).
    rewrite Z.land_ones by lia. symmetry. apply Z.mod_small. lia.
Qed.

Lemma sextet_range v k : 0 <= Z.land (Z.shiftr v k) 63 < 64.
Proof.
  change 63 with (Z.ones 6). rewrite Z.land_ones by lia.
  apply Z.mod_pos_bound. lia.
Qed.

Lemma sextet_range0 v : 0 <= Z.land v 63 < 64.
Proof. apply (sextet_range v 0). Qed.

Lemma decodeMap_encode i : 0 <= i < 64 -> decodeMap (encode i) = Some i.
Proof.
  intros Hi. rewrite <- (Z2Nat.id i) by lia.
  assert (Hn : (Z.to_nat i < 64)%nat) by lia.
  generalize dependent (Z.to_nat i). clear i Hi. intros n Hn.
  do 64 (destruct n as [|n]; [vm_compute; reflexivity|]). lia.
Qed.

Lemma encode_plain i : 0 <= i < 64 -> is_newline (encode i) = false.
Proof.
  intros Hi. rewrite <- (Z2Nat.id i) by lia.
  assert (Hn : (Z.to_nat i < 64)%nat) by lia.
  generalize dependent (Z.to_nat i). clear i Hi. intros n Hn.
  do 64 (destruct n as [|n]; [vm_compute; reflexivity|]). lia.
Qed.

Lemma decodeMap_padChar : decodeMap padChar = None.
Proof. vm_compute. reflexivity. Qed.

(** Induction over a byte sequence three bytes at a time, as [Encode]
    consumes it. *)
Lemma triples_ind (P : list ascii -> Prop) :
  P [] ->
  (forall b0, P [b0]) ->
  (forall b0 b1, P [b0; b1]) ->
  (forall b0 b1 b2 rest, P rest -> P (b0 :: b1 :: b2 :: rest)) ->
  forall src, P src.
Proof.
  intros H0 H1 H2 H3.
  assert (H : forall src, P src /\ (forall a, P (a :: src))
                        /\ (forall a b, P (a :: b :: src))).
  { induction src as [|c src (IH0 & IH1 & IH2)]; [by auto|].
    split; [apply IH1|]. split; [intros a; apply IH2|].
    intros a b. apply H3, IH0. }
  intros src. apply H.
Qed.

Lemma Encode_plain src :
  List.filter (fun c => negb (is_newline c)) (Encode src) = Encode src.
Proof.
  induction src as [|b0|b0 b1|b0 b1 b2 rest IH] using triples_ind;
    cbn [Encode List.filter];
    rewrite ?encode_plain by (apply sextet_range || apply sextet_range0);
    cbn; rewrite ?IH; reflexivity.
Qed.

Lemma u_low8 b : u b = Z.land (u b) 255.
Proof.
  pose proof (u_range b) as Hb. change 255 with (Z.ones 8).
  rewrite Z.land_ones by lia. symmetry. apply Z.mod_small. lia.
Qed.

Lemma regroup_sextets v :
  Z.lor (Z.lor (Z.lor (Z.shiftl (Z.land (Z.shiftr v 18) 63) 18)
                      (Z.shiftl (Z.land (Z.shiftr v 12) 63) 12))
               (Z.shiftl (Z.land (Z.shiftr v 6) 63) 6))
        (Z.land v 63)
  = Z.land v (Z.ones 24).
Proof.
  change 63 with (Z.ones 6). Z.bitblast.
Qed.

Lemma regroup_bytes a0 a1 a2 :
  let val := Z.lor (Z.lor (Z.shiftl (Z.land a0 255) 16)
                      (Z.shiftl (Z.land a1 255) 8)) (Z.land a2 255) in
  Z.land (Z.shiftr (Z.land val (Z.ones 24)) 16) 255 = Z.land a0 255 /\
  Z.land (Z.shiftr (Z.land val (Z.ones 24)) 8) 255 = Z.land a1 255 /\
  Z.land (Z.land val (Z.ones 24)) 255 = Z.land a2 255.
Proof.
  intros val. subst val. change 255 with (Z.ones 8).
  repeat split; Z.bitblast.
Qed.

Lemma quantum_sextets a0 a1 a2 :
  let val := Z.lor (Z.lor (Z.shiftl (Z.land a0 255) 16)
                      (Z.shiftl (Z.land a1 255) 8)) (Z.land a2 255) in
  quantum (Z.land (Z.shiftr val 18) 63) (Z.land (Z.shiftr val 12) 63)
          (Z.land (Z.shiftr val 6) 63) (Z.land val 63)
  = [byte a0; byte a1; byte a2].
Proof.
  intros val. unfold quantum, byte. subst val.
  rewrite regroup_sextets.
  destruct (regroup_bytes a0 a1 a2) as (E0 & E1 & E2).
  cbv zeta in E0, E1, E2. rewrite E0, E1, E2. reflexivity.
Qed.

Lemma quantum3 b0 b1 b2 :
  let val := Z.lor (Z.lor (Z.shiftl (u b0) 16) (Z.shiftl (u b1) 8)) (u b2) in
  quantum (Z.land (Z.shiftr val 18) 63) (Z.land (Z.shiftr val 12) 63)
          (Z.land (Z.shiftr val 6) 63) (Z.land val 63) = [b0; b1; b2].
Proof.
  intros val. subst val.
  rewrite (u_low8 b0), (u_low8 b1), (u_low8 b2).
  rewrite (quantum_sextets (u b0) (u b1) (u b2)).
  rewrite !byte_u. reflexivity.
Qed.

Lemma quantum2 b0 b1 :
  let val := Z.lor (Z.shiftl (u b0) 16) (Z.shiftl (u b1) 8) in
  take 2 (quantum (Z.land (Z.shiftr val 18) 63) (Z.land (Z.shiftr val 12) 63)
                  (Z.land (Z.shiftr val 6) 63) 0) = [b0; b1].
Proof.
  intros val. subst val.
  rewrite (u_low8 b0), (u_low8 b1).
  pose proof (quantum_sextets (u b0) (u b1) 0) as Hq. cbv zeta in Hq.
  change (Z.land 0 255) with 0 in Hq. rewrite Z.lor_0_r in Hq.
  replace (Z.land (Z.lor (Z.shiftl (Z.land (u b0) 255) 16)
                         (Z.shiftl (Z.land (u b1) 255) 8)) 63) with 0 in Hq.
  - rewrite Hq, !byte_u. reflexivity.
  - change 63 with (Z.ones 6). change 255 with (Z.ones 8). Z.bitblast.
Qed.

Lemma quantum1 b0 :
  let val := Z.shiftl (u b0) 16 in
  take 1 (quantum (Z.land (Z.shiftr val 18) 63) (Z.land (Z.shiftr val 12) 63)
                  0 0) = [b0].
Proof.
  intros val. subst val.
  rewrite (u_low8 b0).
  pose proof (quantum_sextets (u b0) 0 0) as Hq. cbv zeta in Hq.
  change (Z.land 0 255) with 0 in Hq.
  change (Z.shiftl 0 8) with 0 in Hq. rewrite !Z.lor_0_r in Hq.
  replace (Z.land (Z.shiftl (Z.land (u b0) 255) 16) 63) with 0 in Hq.
  - replace (Z.land (Z.shiftr (Z.shiftl (Z.land (u b0) 255) 16) 6) 63)
      with 0 in Hq.
    + rewrite Hq, !byte_u. reflexivity.
    + change 63 with (Z.ones 6). change 255 with (Z.ones 8). Z.bitblast.
  - change 63 with (Z.ones 6). change 255 with (Z.ones 8). Z.bitblast.
Qed.

Lemma decodeQuanta_Encode src : decodeQuanta (Encode src) = Ok src.
Proof.
  induction src as [|b0|b0 b1|b0 b1 b2 rest IH] using triples_ind.
  - reflexivity.
  - cbn [Encode decodeQuanta]. cbv zeta.
    rewrite !decodeMap_encode by apply sextet_range.
    rewrite decodeMap_padChar.
    rewrite Ascii.eqb_refl. cbn [andb bool_decide].
    rewrite bool_decide_eq_true_2 by reflexivity.
    rewrite (quantum1 b0). reflexivity.
  - cbn [Encode decodeQuanta]. cbv zeta.
    rewrite !decodeMap_encode by apply sextet_range.
    rewrite decodeMap_padChar.
    rewrite Ascii.eqb_refl. cbn [andb].
    rewrite bool_decide_eq_true_2 by reflexivity.
    rewrite (quantum2 b0 b1). reflexivity.
  - cbn [Encode decodeQuanta]. cbv zeta.
    rewrite !decodeMap_encode by (apply sextet_range || apply sextet_range0).
    rewrite IH, (quantum3 b0 b1 b2). reflexivity.
Qed.

(** [DecodeString(EncodeToString(src))] gives back [src], with no error. *)
Lemma DecodeString_EncodeToString src :
  DecodeString (EncodeToString src) = Ok src.
Proof.
  unfold DecodeString, EncodeToString.
  rewrite list_ascii_of_string_of_list_ascii, Encode_plain.
  apply decodeQuanta_Encode.
Qed.

End Base64Facts.

(** ** parseAddrs *)

Section ParseAddrsFacts.
Context {Multiaddr : Type} (NewMultiaddr : string -> Result Multiaddr).

#[local] Abbreviation resolve := (resolve NewMultiaddr).
#[local] Abbreviation visited := (visited NewMultiaddr).
#[local] Abbreviation unsplittable := (unsplittable NewMultiaddr).
#[local] Abbreviation wellformed := (wellformed NewMultiaddr).
#[local] Abbreviation parseAddrs := (parseAddrs NewMultiaddr).
#[local] Abbreviation parseAddrs_loop := (parseAddrs_loop NewMultiaddr).

Lemma insert_at_length {A} (pre : list A) t tail x :
  <[length pre := x]> (pre ++ t :: tail)%list = (pre ++ x :: tail)%list.
Proof.
  rewrite insert_app_r_alt by lia. rewrite Nat.sub_diag. reflexivity.
Qed.

(** One turn of the loop that goes on to the next address leaves
    [resolve] of the address in its slot and in [err]. *)
Lemma parseAddrs_loop_next a rest pre t tail err :
  unsplittable a = false ->
  parseAddrs_loop (a :: rest) (length pre) (pre ++ t :: tail) err =
  parseAddrs_loop rest (S (length pre))
                  (pre ++ to_option (resolve a) :: tail)
                  (error_of (resolve a)).
Proof.
  unfold unsplittable, resolve, fallback. intros Hs.
  cbn [parseAddrs_loop]. rewrite !insert_at_length.
  destruct (NewMultiaddr a) as [m|e]; cbn [error_of to_option]; [done|].
  destruct (Net.SplitHostPort a) as [[host port]|serr]; [|done].
  cbn [to_option]. rewrite insert_at_length. reflexivity.
Qed.

(** The turn at an unsplittable address returns with the error of the
    first attempt. *)
Lemma parseAddrs_loop_stop a rest pre t tail err :
  unsplittable a = true ->
  parseAddrs_loop (a :: rest) (length pre) (pre ++ t :: tail) err =
  (pre ++ None :: tail, error_of (NewMultiaddr a)).
Proof.
  unfold unsplittable. intros Hs. cbn [parseAddrs_loop].
  rewrite !insert_at_length.
  destruct (NewMultiaddr a) as [m|e]; [done|].
  destruct (Net.SplitHostPort a) as [[host port]|serr]; [done|].
  reflexivity.
Qed.

Lemma resolve_unsplittable a :
  unsplittable a = true ->
  to_option (resolve a) = None /\
  error_of (resolve a) = error_of (NewMultiaddr a).
Proof.
  unfold unsplittable, resolve.
  destruct (NewMultiaddr a); [done|].
  destruct (Net.SplitHostPort a) as [[??]|]; done.
Qed.

(** The loop, as a function of the addresses it goes through. *)
Lemma parseAddrs_loop_spec addrs : forall pre tail err,
  length tail = length addrs ->
  parseAddrs_loop addrs (length pre) (pre ++ tail) err =
  (pre ++ ((to_option ∘ resolve) <$> visited addrs)
       ++ drop (length (visited addrs)) tail,
   from_option (fun a => error_of (resolve a)) err (last (visited addrs)))%list.
Proof.
  induction addrs as [|a rest IH]; intros pre tail err Hlen.
  - destruct tail; [|done]. reflexivity.
  - destruct tail as [|t tail]; [done|]. cbn [visited].
    destruct (unsplittable a) eqn:Hs.
    + rewrite parseAddrs_loop_stop by done. cbn.
      destruct (resolve_unsplittable a Hs) as [-> ->]. reflexivity.
    + rewrite parseAddrs_loop_next by done.
      replace (S (length pre)) with (length (pre ++ [to_option (resolve a)]))
        by (rewrite length_app; cbn; lia).
      replace (pre ++ to_option (resolve a) :: tail)%list
        with ((pre ++ [to_option (resolve a)]) ++ tail)%list
        by (rewrite <- app_assoc; reflexivity).
      rewrite IH by (cbn in Hlen; lia).
      rewrite <- app_assoc. cbn [fmap list_fmap app length drop compose].
      f_equal. rewrite last_cons.
      destruct (last (visited rest)); reflexivity.
Qed.

Lemma parseAddrs_spec addrs :
  parseAddrs addrs =
  (((to_option ∘ resolve) <$> visited addrs)
     ++ replicate (length addrs - length (visited addrs)) None,
   from_option (fun a => error_of (resolve a)) None (last (visited addrs)))%list.
Proof.
  unfold parseAddrs.
  pose proof (parseAddrs_loop_spec addrs [] (replicate (length addrs) None) None)
    as Hspec.
  cbn [length app] in Hspec. rewrite Hspec by apply length_replicate.
  rewrite drop_replicate. reflexivity.
Qed.

Lemma visited_all addrs :
  Forall (fun a => unsplittable a = false) addrs -> visited addrs = addrs.
Proof.
  induction 1 as [|a rest Ha _ IH]; cbn; [done|]. rewrite Ha, IH. done.
Qed.

Lemma wellformed_resolve a :
  wellformed a = true ->
  unsplittable a = false /\ exists m, resolve a = Ok m.
Proof.
  unfold wellformed, unsplittable, resolve, fallback.
  destruct (NewMultiaddr a) as [m|e]; cbn; [by eauto|].
  destruct (Net.SplitHostPort a) as [[host port]|serr]; cbn; [|done].
  destruct (NewMultiaddr _) as [m|e']; cbn; [by eauto|done].
Qed.

Lemma visited_lookup addrs : forall i,
  (forall j b, (j < i)%nat -> addrs !! j = Some b -> unsplittable b = false) ->
  visited addrs !! i = addrs !! i.
Proof.
  induction addrs as [|a rest IH]; intros i Hbefore; [done|].
  cbn [visited]. destruct i as [|i]; [by destruct (unsplittable a)|].
  rewrite (Hbefore 0%nat a) by (done || lia). cbn.
  apply IH. intros j b Hj Hb. apply (Hbefore (S j) b); [lia|done].
Qed.

Lemma resolved_list addrs :
  Forall (fun a => exists m, resolve a = Ok m) addrs ->
  exists ms, Forall2 (fun a m => resolve a = Ok m) addrs ms.
Proof.
  induction 1 as [|a rest [m Hm] _ [ms Hms]].
  - exists []. constructor.
  - exists (m :: ms). by constructor.
Qed.

Lemma resolved_slots addrs ms :
  Forall2 (fun a m => resolve a = Ok m) addrs ms ->
  (to_option ∘ resolve) <$> addrs = Some <$> ms.
Proof.
  induction 1 as [|a m rest ms Ha _ IH]; [done|].
  cbn. rewrite Ha, IH. reflexivity.
Qed.

(** The error that [parseAddrs] returns is the one left by the last address
    it went through, whatever happened at the addresses before it. *)
Lemma parseAddrs_err addrs :
  (parseAddrs addrs).2 =
  from_option (fun a => error_of (resolve a)) None (last (visited addrs)).
Proof. rewrite parseAddrs_spec. reflexivity. Qed.

(** At the first address that neither parses nor splits, [parseAddrs]
    returns the error of the first attempt on it. *)
Lemma parseAddrs_unsplittable l1 a l2 :
  Forall (fun b => unsplittable b = false) l1 ->
  unsplittable a = true ->
  (parseAddrs (l1 ++ a :: l2)).2 = error_of (NewMultiaddr a) /\
  (parseAddrs (l1 ++ a :: l2)).2 <> None.
Proof.
  intros Hl1 Ha. rewrite parseAddrs_err.
  assert (Hv : visited (l1 ++ a :: l2) = l1 ++ [a]).
  { clear -Hl1 Ha. induction Hl1 as [|b l1 Hb _ IH]; cbn [visited app].
    - rewrite Ha. reflexivity.
    - rewrite Hb, IH. reflexivity. }
  rewrite Hv, last_snoc. cbn.
  destruct (resolve_unsplittable a Ha) as [_ ->].
  split; [done|]. unfold unsplittable in Ha.
  destruct (NewMultiaddr a); done.
Qed.

(** A malformed address that splits is passed over when a well-formed
    address ends the list: no error is returned. *)
Lemma parseAddrs_passes_over l1 a :
  Forall (fun b => unsplittable b = false) l1 ->
  wellformed a = true ->
  (parseAddrs (l1 ++ [a])).2 = None.
Proof.
  intros Hl1 Ha. rewrite parseAddrs_err.
  destruct (wellformed_resolve a Ha) as [Hs [m Hm]].
  rewrite visited_all.
  - rewrite last_snoc. cbn. rewrite Hm. reflexivity.
  - apply Forall_app. split; [done|]. by constructor.
Qed.

(** C5. When every address of the list is a well-formed multiaddress or a
    host:port pair that the fallback recovers, [parseAddrs] returns no error
    and a list with one multiaddress for each input, in the order of the
    inputs: the multiaddress at each position is the one its input resolves
    to. *)
Theorem parseAddrs_wellformed addrs :
  Forall (fun a => wellformed a = true) addrs ->
  exists ms,
    parseAddrs addrs = (Some <$> ms, None) /\
    length ms = length addrs /\
    Forall2 (fun a m => resolve a = Ok m) addrs ms.
Proof.
  intros Hwf.
  assert (Hgo : Forall (fun a => unsplittable a = false) addrs).
  { eapply Forall_impl; [exact Hwf|]. intros a Ha.
    apply (wellformed_resolve a Ha). }
  assert (Hok : Forall (fun a => exists m, resolve a = Ok m) addrs).
  { eapply Forall_impl; [exact Hwf|]. intros a Ha.
    apply (wellformed_resolve a Ha). }
  destruct (resolved_list addrs Hok) as [ms Hms].
  exists ms. split; [|split]; [| symmetry; eapply Forall2_length; exact Hms
                               | exact Hms].
  rewrite parseAddrs_spec, (visited_all addrs Hgo), Nat.sub_diag.
  cbn [replicate]. rewrite app_nil_r, (resolved_slots addrs ms Hms).
  f_equal. destruct (last addrs) as [a|] eqn:Hlast; [|done]. cbn.
  apply last_Some_elem_of in Hlast.
  rewrite Forall_forall in Hok. destruct (Hok a Hlast) as [m ->]. done.
Qed.

(** The entry of an address that goes through the fallback: what the
    second parse gives, be it an address or nil; when the address is the
    last one, the error of the second parse is the error returned. *)
Lemma parseAddrs_fallback addrs i a host port :
  addrs !! i = Some a ->
  is_Ok (NewMultiaddr a) = false ->
  Net.SplitHostPort a = Ok (host, port) ->
  (forall j b, (j < i)%nat -> addrs !! j = Some b -> unsplittable b = false) ->
  let again :=
    NewMultiaddr ("/ip4/" +:+ (if String.eqb host "" then "127.0.0.1" else host)
                  +:+ "/tcp/" +:+ port +:+ "/") in
  (parseAddrs addrs).1 !! i = Some (to_option again) /\
  (S i = length addrs -> (parseAddrs addrs).2 = error_of again).
Proof.
  intros Hi Hfail Hsplit Hbefore again.
  assert (Hres : resolve a = again).
  { unfold resolve, fallback. destruct (NewMultiaddr a); [done|].
    rewrite Hsplit. reflexivity. }
  assert (Hgo : unsplittable a = false).
  { unfold unsplittable. rewrite Hsplit. cbn. apply andb_false_r. }
  assert (Hv : visited addrs !! i = Some a)
    by (rewrite visited_lookup; done).
  split.
  - rewrite parseAddrs_spec. cbn [fst].
    rewrite lookup_app_l
      by (rewrite length_fmap; eapply lookup_lt_Some; exact Hv).
    rewrite list_lookup_fmap, Hv. cbn. rewrite Hres. reflexivity.
  - intros Hlast. rewrite parseAddrs_err.
    assert (Hall : visited addrs = addrs).
    { apply visited_all, Forall_lookup. intros j b Hb.
      destruct (decide (j < i)%nat) as [Hj|Hj]; [by eapply Hbefore|].
      assert (j = i) as -> by (apply lookup_lt_Some in Hb; lia).
      congruence. }
    rewrite Hall. rewrite last_lookup, <- Hlast. cbn [pred].
    rewrite Hi. cbn. rewrite Hres. reflexivity.
Qed.

(** C6, as the code has it.  An address whose direct parse fails and which
    splits into a host and a port is parsed again as
    "/ip4/<host>/tcp/<port>/", with 127.0.0.1 for an empty host.  When the
    loop reaches the address (no address before it is refused by both the
    parser and the splitter) and this second parse succeeds, the multiaddress
    it gives is the entry of [parseAddrs] at the position of the address. *)
Theorem parseAddrs_fallback_parsed addrs i a host port m :
  addrs !! i = Some a ->
  is_Ok (NewMultiaddr a) = false ->
  Net.SplitHostPort a = Ok (host, port) ->
  (forall j b, (j < i)%nat -> addrs !! j = Some b -> unsplittable b = false) ->
  NewMultiaddr ("/ip4/" +:+ (if String.eqb host "" then "127.0.0.1" else host)
                +:+ "/tcp/" +:+ port +:+ "/") = Ok m ->
  (parseAddrs addrs).1 !! i = Some (Some m).
Proof.
  intros Hi Hfail Hsplit Hbefore Hagain.
  destruct (parseAddrs_fallback addrs i a host port Hi Hfail Hsplit Hbefore)
    as [Hslot _].
  rewrite Hslot, Hagain. reflexivity.
Qed.

End ParseAddrsFacts.

(** The text of the fallback with and without its final slash is the same
    multiaddress. *)
Lemma TrimRight_slash s :
  Strings.TrimRight (s +:+ "/") "/" = Strings.TrimRight s "/".
Proof.
  induction s as [|c s IH]; [reflexivity|].
  change (String c s +:+ "/") with (String c (s +:+ "/")).
  cbn [Strings.TrimRight]. rewrite IH. reflexivity.
Qed.

Lemma NewMultiaddr_final_slash s :
  Multiaddr.NewMultiaddr (s +:+ "/") = Multiaddr.NewMultiaddr s.
Proof. unfold Multiaddr.NewMultiaddr. rewrite TrimRight_slash. reflexivity. Qed.

Lemma parseAddrs_wellformed_witness :
  exists ms,
    parseAddrs Multiaddr.NewMultiaddr ["/ip4/0.0.0.0/tcp/4040"; ":9999"]
    = (Some <$> ms, None) /\
    length ms = 2%nat /\
    Forall2 (fun a m => resolve Multiaddr.NewMultiaddr a = Ok m)
            ["/ip4/0.0.0.0/tcp/4040"; ":9999"] ms.
Proof.
  apply (parseAddrs_wellformed Multiaddr.NewMultiaddr
           ["/ip4/0.0.0.0/tcp/4040"; ":9999"]).
  repeat constructor.
Defined.

Lemma parseAddrs_fallback_parsed_witness :
  (parseAddrs Multiaddr.NewMultiaddr ["/ip4/0.0.0.0/tcp/4040"; ":9999"]).1
    !! 1%nat
  = Some (Some [Multiaddr.P_ip4 127 0 0 1; Multiaddr.P_tcp 9999]).
Proof.
  apply (parseAddrs_fallback_parsed Multiaddr.NewMultiaddr
           ["/ip4/0.0.0.0/tcp/4040"; ":9999"] 1 ":9999" "" "9999").
  - reflexivity.
  - reflexivity.
  - reflexivity.
  - intros j b Hj Hb. destruct j as [|j]; [|lia].
    injection Hb as <-. reflexivity.
  - reflexivity.
Defined.

(** C6, as stated, fails in two ways.  "localhost:9999" does not parse and
    splits, but its rewritten text "/ip4/localhost/tcp/9999/" does not parse
    either, and its entry is nil.  ":9999" does not parse, splits, and its
    rewritten text "/ip4/127.0.0.1/tcp/9999/" parses, but after "foo", at
    which [parseAddrs] returns, its entry is nil. *)
Lemma parseAddrs_fallback_nil :
  (is_Ok (Multiaddr.NewMultiaddr "localhost:9999") = false /\
   Net.SplitHostPort "localhost:9999" = Ok ("localhost", "9999") /\
   (parseAddrs Multiaddr.NewMultiaddr ["localhost:9999"]).1 = [None] /\
   ~ (exists m, (parseAddrs Multiaddr.NewMultiaddr ["localhost:9999"]).1
                  !! 0%nat = Some (Some m))) /\
  (is_Ok (Multiaddr.NewMultiaddr ":9999") = false /\
   Net.SplitHostPort ":9999" = Ok ("", "9999") /\
   Multiaddr.NewMultiaddr "/ip4/127.0.0.1/tcp/9999/"
   = Ok [Multiaddr.P_ip4 127 0 0 1; Multiaddr.P_tcp 9999] /\
   (parseAddrs Multiaddr.NewMultiaddr ["foo"; ":9999"]).1 = [None; None] /\
   ~ (exists m, (parseAddrs Multiaddr.NewMultiaddr ["foo"; ":9999"]).1
                  !! 1%nat = Some (Some m))).
Proof.
  split.
  - split; [reflexivity|]. split; [reflexivity|]. split; [reflexivity|].
    intros [m Hm]. vm_compute in Hm. discriminate.
  - split; [reflexivity|]. split; [reflexivity|]. split; [reflexivity|].
    split; [reflexivity|]. intros [m Hm]. vm_compute in Hm. discriminate.
Qed.

(** C1. A malformed address that is not the last of the list is lost:
    "localhost:9999" fails both attempts (the text does not begin with a
    slash, and "localhost" is no IPv4 address), yet [parseAddrs] on it
    followed by a well-formed address returns no error and a list whose
    first entry is nil.  The error is returned only when the malformed
    address comes last. *)
Theorem parseAddrs_malformed_not_last :
  malformed Multiaddr.NewMultiaddr "localhost:9999" = true /\
  parseAddrs Multiaddr.NewMultiaddr ["localhost:9999"; "/ip4/0.0.0.0/tcp/4040"]
  = ([None; Some [Multiaddr.P_ip4 0 0 0 0; Multiaddr.P_tcp 4040]], None) /\
  parseAddrs Multiaddr.NewMultiaddr ["/ip4/0.0.0.0/tcp/4040"; "localhost:9999"]
  = ([Some [Multiaddr.P_ip4 0 0 0 0; Multiaddr.P_tcp 4040]; None],
     Some (MultiaddrError "/ip4/localhost/tcp/9999"
                          "invalid value localhost for protocol ip4")).
Proof. repeat split; vm_compute; reflexivity. Qed.

(** C8. With [-l] unset the listeners are the two addresses of the default
    value: TCP port 4040 and QUIC over UDP port 4141, both on the IPv4
    address 0.0.0.0; [parseAddrs] resolves them without error. *)
Theorem default_listeners :
  let laddrs := Strings.Split (serveFlagsListeners None) "," in
  laddrs = ["/ip4/0.0.0.0/tcp/4040"; "/ip4/0.0.0.0/udp/4141/quic"] /\
  parseAddrs Multiaddr.NewMultiaddr laddrs
  = ([Some [Multiaddr.P_ip4 0 0 0 0; Multiaddr.P_tcp 4040];
      Some [Multiaddr.P_ip4 0 0 0 0; Multiaddr.P_udp 4141; Multiaddr.P_quic]],
     None).
Proof. split; vm_compute; reflexivity. Qed.

(** ** Identity: load, generate, serialize *)

Section IdentityFacts.
Context {PrivKey Entropy : Type}.
Context (UnmarshalPrivateKey : list ascii -> Result PrivKey).
Context (MarshalPrivateKey : PrivKey -> Result (list ascii)).
Context (GenerateKeyPairWithReader :
           KeyType -> Z -> Entropy -> Result PrivKey * Entropy).

#[local] Abbreviation World := (World (Entropy := Entropy)).
#[local] Abbreviation load := (load (Entropy := Entropy) UnmarshalPrivateKey).
#[local] Abbreviation serialize :=
  (serialize (Entropy := Entropy) MarshalPrivateKey).
#[local] Abbreviation generate := (generate GenerateKeyPairWithReader).
#[local] Abbreviation identity :=
  (identity UnmarshalPrivateKey GenerateKeyPairWithReader).
#[local] Abbreviation genkey_Exec :=
  (genkey_Exec MarshalPrivateKey GenerateKeyPairWithReader).

(** What [load] returns, and the calls it makes. *)
Lemma load_unfold pk (w : World) :
  load pk w =
  match Base64.DecodeString pk with
  | Err e => (Err (Wrap ErrCode_TODO e), emit (EvDecodeString pk) w)
  | Ok kBytes =>
      let w' := emit (EvUnmarshalPrivateKey kBytes)
                     (emit (EvDecodeString pk) w) in
      match UnmarshalPrivateKey kBytes with
      | Err e => (Err (Wrap ErrCode_TODO e), w')
      | Ok priv => (Ok priv, w')
      end
  end.
Proof.
  unfold Rdvp.load, bind, orTODO, call.
  destruct (Base64.DecodeString pk) as [kBytes|e]; [|reflexivity].
  destruct (UnmarshalPrivateKey kBytes); reflexivity.
Qed.

Lemma serialize_unfold priv (w : World) :
  serialize priv w =
  match MarshalPrivateKey priv with
  | Err e => (Err (Wrap ErrCode_TODO e), emit EvMarshalPrivateKey w)
  | Ok kBytes => (Ok (Base64.EncodeToString kBytes), emit EvMarshalPrivateKey w)
  end.
Proof.
  unfold Rdvp.serialize, bind, orTODO, call, ret.
  destruct (MarshalPrivateKey priv); reflexivity.
Qed.

Lemma generate_unfold (w : World) :
  generate w =
  let '(r, s) := GenerateKeyPairWithReader RSA 2048 (entropy w) in
  (match r with Ok priv => Ok priv | Err e => Err (Wrap ErrCode_TODO e) end,
   emit (EvGenerateKeyPair RSA 2048)
        {| env := env w; entropy := s; trace := trace w |}).
Proof.
  unfold Rdvp.generate, orTODO, GenerateKeyPair.
  destruct (GenerateKeyPairWithReader RSA 2048 (entropy w)) as [[priv|e] s];
    reflexivity.
Qed.

(** C3. Given that the key library reads back the bytes it writes for a
    key, the text that [serialize] gives for a key [k] is loaded as [k]:
    the bytes are base64-encoded by the one and decoded by the other, and
    decoding undoes encoding. *)
Theorem load_serialize :
  (forall k kBytes,
      MarshalPrivateKey k = Ok kBytes -> UnmarshalPrivateKey kBytes = Ok k) ->
  forall (k : PrivKey) (s : string) (w w' : World),
    serialize k w = (Ok s, w') ->
    forall w0 : World, (load s w0).1 = Ok k.
Proof.
  intros Hcodec k s w w' Hs w0.
  rewrite serialize_unfold in Hs.
  destruct (MarshalPrivateKey k) as [kBytes|e] eqn:Hm; [|discriminate].
  injection Hs as <- _.
  rewrite load_unfold, DecodeString_EncodeToString. cbv zeta.
  rewrite (Hcodec k kBytes Hm). reflexivity.
Qed.

(** C4, as the code has it.  The text of a key that is no base64, or whose
    bytes are no private key, makes [load] fail and return no key.  The
    error is the one of the step that failed (the decoding in the first
    case, the reading of the key in the second) under the tag
    [errcode.TODO], the same for both. *)
Theorem load_malformed pk (w : World) :
  undecodable pk \/ not_a_key UnmarshalPrivateKey pk ->
  exists c,
    (load pk w).1 = Err (WithCode ErrCode_TODO c) /\
    to_option (load pk w).1 = None /\
    (undecodable pk -> Base64.DecodeString pk = Err c) /\
    (not_a_key UnmarshalPrivateKey pk ->
     exists kBytes, Base64.DecodeString pk = Ok kBytes /\
                    UnmarshalPrivateKey kBytes = Err c).
Proof.
  unfold undecodable, not_a_key. rewrite load_unfold.
  intros [Hd | (kBytes & Hd & Hk)].
  - destruct (Base64.DecodeString pk) as [?|e]; [discriminate|].
    exists e. split; [reflexivity|]. split; [reflexivity|].
    split; [reflexivity|]. intros (? & ? & _). discriminate.
  - rewrite Hd. cbv zeta.
    destruct (UnmarshalPrivateKey kBytes) as [?|e] eqn:Hu; [discriminate|].
    exists e. split; [reflexivity|]. split; [reflexivity|].
    split; [discriminate|]. intros _. exists kBytes. done.
Qed.


(** genkey generates its key and never loads one. *)
Lemma genkey_generates (w : World) :
  exists calls,
    trace (genkey_Exec w).2 = trace w ++ EvGenerateKeyPair RSA 2048 :: calls /\
    Forall (fun ev => is_decode ev = false /\ is_generate ev = false) calls.
Proof.
  unfold Rdvp.genkey_Exec, bind. rewrite generate_unfold.
  destruct (GenerateKeyPairWithReader RSA 2048 (entropy w)) as [[priv|e] s].
  - rewrite serialize_unfold.
    destruct (MarshalPrivateKey priv) as [kBytes|e].
    + exists [EvMarshalPrivateKey; EvPrintln (Base64.EncodeToString kBytes)].
      split; [cbn; rewrite <- !app_assoc; reflexivity|].
      repeat constructor.
    + exists [EvMarshalPrivateKey].
      split; [cbn; rewrite <- !app_assoc; reflexivity|].
      repeat constructor.
  - exists []. split; [reflexivity|constructor].
Qed.

End IdentityFacts.

(** The model of the key library reads back what it writes. *)
Lemma Crypto_codec k kBytes :
  Crypto.MarshalPrivateKey k = Ok kBytes ->
  Crypto.UnmarshalPrivateKey kBytes = Ok k.
Proof.
  destruct k as [kk Hk]. unfold Crypto.MarshalPrivateKey. cbn [Crypto.k].
  intros [= <-]. unfold Crypto.UnmarshalPrivateKey.
  change (take 4 (Crypto.envelope ++ kk)) with Crypto.envelope.
  change (drop 4 (Crypto.envelope ++ kk)) with kk.
  rewrite bool_decide_eq_true_2 by reflexivity.
  destruct (decide _) as [H|H]; [|done].
  f_equal. f_equal. apply proof_irrel.
Qed.

Lemma load_serialize_witness :
  let k0 := {| Crypto.k := replicate 64 "000"%char; Crypto.k_size := I |} in
  let w := {| env := ∅; entropy := tt; trace := [] |} in
  (load Crypto.UnmarshalPrivateKey
        (Base64.EncodeToString (Crypto.envelope ++ Crypto.k k0)) w).1 = Ok k0.
Proof.
  intros k0 w.
  apply (load_serialize Crypto.UnmarshalPrivateKey Crypto.MarshalPrivateKey
           Crypto_codec k0 _ w (emit EvMarshalPrivateKey w)).
  reflexivity.
Defined.

Lemma load_malformed_witness :
  let w := {| env := ∅; entropy := tt; trace := [] |} in
  exists c,
    (load Crypto.UnmarshalPrivateKey "AAAA" w).1 = Err (WithCode ErrCode_TODO c) /\
    to_option (load Crypto.UnmarshalPrivateKey "AAAA" w).1 = None /\
    (undecodable "AAAA" -> Base64.DecodeString "AAAA" = Err c) /\
    (not_a_key Crypto.UnmarshalPrivateKey "AAAA" ->
     exists kBytes, Base64.DecodeString "AAAA" = Ok kBytes /\
                    Crypto.UnmarshalPrivateKey kBytes = Err c).
Proof.
  intros w. apply (load_malformed Crypto.UnmarshalPrivateKey "AAAA" w).
  right. exists ["000"; "000"; "000"]%char. split; reflexivity.
Defined.

(** C4, as stated, fails: a text that is no base64 and a text whose bytes
    are no key both make [load] fail under the tag [errcode.TODO]. *)
Lemma load_failures_share_tag :
  let w := {| env := ∅; entropy := tt; trace := [] |} in
  undecodable "!" /\
  not_a_key Crypto.UnmarshalPrivateKey "AAAA" /\
  ~ (forall e1 e2,
        (load Crypto.UnmarshalPrivateKey "!" w).1 = Err e1 ->
        (load Crypto.UnmarshalPrivateKey "AAAA" w).1 = Err e2 ->
        tag e1 <> tag e2).
Proof.
  intros w. split; [reflexivity|]. split.
  - exists ["000"; "000"; "000"]%char. split; reflexivity.
  - intros Hdistinct.
    apply (Hdistinct (WithCode ErrCode_TODO CorruptInputError)
             (WithCode ErrCode_TODO
                (KeyError "proto: cannot parse pb.PrivateKey")));
      reflexivity.
Qed.

(** ** The logger *)

Section LoggerFacts.
Context {Entropy : Type}.
Context (openSinks : list string -> option error).

#[local] Abbreviation World := (World (Entropy := Entropy)).
#[local] Abbreviation newLogger := (newLogger (Entropy := Entropy) openSinks).

Lemma ParseBool_truthy v : (Strconv.ParseBool v).1 = bool_decide (truthy v).
Proof.
  unfold Strconv.ParseBool, truthy.
  destruct (bool_decide (v ∈ ["1"; "t"; "T"; "TRUE"; "true"; "True"]));
    [reflexivity|].
  destruct (bool_decide _); reflexivity.
Qed.

Lemma parseBoolFromEnv_unfold key (w : World) :
  parseBoolFromEnv key w =
  (bool_decide (truthy (default "" (env w !! key))), emit (EvGetenv key) w).
Proof.
  unfold parseBoolFromEnv, Getenv. rewrite <- ParseBool_truthy.
  destruct (Strconv.ParseBool _). reflexivity.
Qed.

(** C10. [parseBoolFromEnv] gives a boolean for every key and environment
    and has no error to give: the boolean is the one [strconv.ParseBool]
    reads in the value of the variable, that is [true] for 1, t, T, TRUE,
    true and True, and [false] for any other value, for the empty value and
    for a variable that is not set. *)
Theorem parseBoolFromEnv_total key (w : World) :
  let v := default "" (env w !! key) in
  let b := (parseBoolFromEnv key w).1 in
  b = (Strconv.ParseBool v).1 /\
  (b = true <-> truthy v) /\
  ((Strconv.ParseBool v).2 <> None -> b = false) /\
  (env w !! key = None \/ env w !! key = Some "" -> b = false) /\
  (parseBoolFromEnv key w).2 = emit (EvGetenv key) w.
Proof.
  intros v b. subst b v. rewrite parseBoolFromEnv_unfold. cbn [fst snd].
  split; [by rewrite ParseBool_truthy|].
  split; [apply bool_decide_eq_true|].
  split; [|split; [|reflexivity]].
  - pose proof (ParseBool_truthy (default "" (env w !! key))) as Hp.
    unfold Strconv.ParseBool in *.
    destruct (bool_decide (_ ∈ ["1"; "t"; "T"; "TRUE"; "true"; "True"]));
      [done|].
    destruct (bool_decide (_ ∈ _)); [done|]. cbn in *. done.
  - intros [-> | ->]; reflexivity.
Qed.

(** C9. [newLogger] looks up three variables in the environment,
    BERTY_DEBUG, LIBP2P_DEBUG and ORBITDB_DEBUG, and no other; the logger it
    returns is at the debug level when one of them is set to a true value or
    the debug flag is given, and at the info level otherwise. *)
Theorem newLogger_level debug logfile (w w' : World) logger :
  newLogger debug logfile w = (Ok logger, w') ->
  (Level_ (logger_config logger) = DebugLevel <->
   debug = true \/
   exists key, key ∈ debug_switches /\ truthy (default "" (env w !! key))) /\
  (Level_ (logger_config logger) = DebugLevel \/
   Level_ (logger_config logger) = InfoLevel) /\
  consulted (trace w') = consulted (trace w) ++ debug_switches /\
  NoDup debug_switches /\ length debug_switches = 3%nat.
Proof.
  unfold Rdvp.newLogger. rewrite !parseBoolFromEnv_unfold.
  cbn [env emit].
  set (berty := bool_decide (truthy (default "" (env w !! "BERTY_DEBUG")))).
  set (libp2p := bool_decide (truthy (default "" (env w !! "LIBP2P_DEBUG")))).
  set (orbitdb := bool_decide (truthy (default "" (env w !! "ORBITDB_DEBUG")))).
  set (config := if berty || debug || orbitdb || libp2p then _ else _).
  unfold Build.
  destruct (openSinks (OutputPaths config)); [discriminate|].
  intros [= <- <-]. cbn [logger_config].
  assert (Hlevel : Level_ config =
                   if berty || debug || orbitdb || libp2p
                   then DebugLevel else InfoLevel).
  { subst config. destruct (berty || debug || orbitdb || libp2p); reflexivity. }
  rewrite Hlevel. split; [|split; [|split; [|split]]].
  - assert (Hor : berty || debug || orbitdb || libp2p = true <->
                  debug = true \/
                  exists key, key ∈ debug_switches /\
                              truthy (default "" (env w !! key))).
    { unfold debug_switches. split.
      - intros H. repeat (apply orb_prop in H as [H|H]).
        + right. exists "BERTY_DEBUG". split; [set_solver|].
          by apply bool_decide_eq_true in H.
        + by left.
        + right. exists "ORBITDB_DEBUG". split; [set_solver|].
          by apply bool_decide_eq_true in H.
        + right. exists "LIBP2P_DEBUG". split; [set_solver|].
          by apply bool_decide_eq_true in H.
      - intros [-> | (key & Hkey & Htrue)]; [by rewrite !orb_true_r|].
        apply (bool_decide_eq_true_2 _) in Htrue.
        repeat (apply elem_of_cons in Hkey as [-> | Hkey]);
          [subst berty|subst libp2p|subst orbitdb|by apply elem_of_nil in Hkey];
          rewrite Htrue, ?orb_true_r; reflexivity. }
    rewrite <- Hor. destruct (berty || debug || orbitdb || libp2p); done.
  - destruct (berty || debug || orbitdb || libp2p); auto.
  - unfold consulted, debug_switches.
    destruct libp2p, orbitdb; cbn [trace emit];
      rewrite <- ?app_assoc, omap_app; reflexivity.
  - apply (bool_decide_unpack _). vm_compute. exact I.
  - reflexivity.
Qed.

End LoggerFacts.

Lemma newLogger_level_witness :
  let w := {| env := {[ "LIBP2P_DEBUG" := "true" ]}; entropy := tt;
              trace := [] |} in
  let logger := {| logger_config := {|
      Level_ := DebugLevel; Development := true; DisableStacktrace := true;
      Encoding := "console"; EncodeLevel := CapitalColorLevelEncoder;
      OutputPaths := ["stderr"] |} |} in
  let w' := (newLogger (fun _ => None) false "" w).2 in
  newLogger (fun _ => None) false "" w = (Ok logger, w') /\
  (Level_ (logger_config logger) = DebugLevel <->
   false = true \/
   exists key, key ∈ debug_switches /\ truthy (default "" (env w !! key))) /\
  (Level_ (logger_config logger) = DebugLevel \/
   Level_ (logger_config logger) = InfoLevel) /\
  consulted (trace w') = consulted (trace w) ++ debug_switches /\
  NoDup debug_switches /\ length debug_switches = 3%nat.
Proof.
  intros w logger w'. split; [vm_compute; reflexivity|].
  apply (newLogger_level (fun _ => None) false "" w w' logger).
  vm_compute. reflexivity.
Defined.

(** ** main *)

(** What [main] makes of the value of [process.Run()], the value returned
    by the first actor to return: no [log.Fatal] for nil and for
    [context.Canceled] itself, [log.Fatal] and status 1 for any other
    error. *)
Lemma main_first_return (first : option error) (rest : list (option error)) :
  (first = ctx_Err CtxCanceled ->
   main (first :: rest) = Returns /\ exit_status (main (first :: rest)) = 0) /\
  (forall e, first = Some e -> e <> Canceled ->
   main (first :: rest) = Fatal e /\ exit_status (main (first :: rest)) = 1) /\
  (first = None -> main (first :: rest) = Returns).
Proof.
  unfold main. cbn [Group_Run]. split; [|split].
  - intros ->. cbn. rewrite bool_decide_eq_false_2 by (intros H; by apply H).
    done.
  - intros e -> He. rewrite bool_decide_eq_true_2 by done. done.
  - intros ->. reflexivity.
Qed.

(** [main] compares the error itself: an error under a tag is not
    [context.Canceled], whatever it wraps. *)
Lemma main_tagged_fatal code inner rest :
  main (Some (Wrap code inner) :: rest) = Fatal (WithCode code inner).
Proof. reflexivity. Qed.

Section ServeFacts.
Context {Multiaddr PrivKey Entropy Host DB : Type}.
Context (NewMultiaddr : string -> Result Multiaddr).
Context (UnmarshalPrivateKey : list ascii -> Result PrivKey).
Context (GenerateKeyPairWithReader :
           KeyType -> Z -> Entropy -> Result PrivKey * Entropy).
Context (libp2p_New : list (option Multiaddr) -> PrivKey -> Result Host).
Context (OpenDB : string -> Result DB).
Context (openSinks : list string -> option error).

#[local] Abbreviation serve_Exec :=
  (serve_Exec NewMultiaddr UnmarshalPrivateKey GenerateKeyPairWithReader
              libp2p_New OpenDB openSinks).

(** Every error that serve returns is under the tag [errcode.TODO]; once
    its context is cancelled, serve returns such an error. *)
Lemma serve_Exec_errors_tagged globalDebug globalLogToFile db l pk done
    (w : World (Entropy := Entropy)) :
  match (serve_Exec globalDebug globalLogToFile db l pk done w).1 with
  | Ok _ => done = CtxActive
  | Err e => tag e = Some ErrCode_TODO
  end.
Proof.
  unfold Rdvp.serve_Exec, bind, orTODO, defer, call, fail, ret.
  destruct (globalPreRun _ _ _ w) as [[logger|e] w1]; [|reflexivity].
  destruct (parseAddrs _ _) as [listeners [err|]]; [reflexivity|].
  unfold identity. destruct (negb _).
  - rewrite load_unfold. destruct (Base64.DecodeString _); [|reflexivity].
    cbv zeta. destruct (UnmarshalPrivateKey _); [|reflexivity].
    destruct (libp2p_New _ _); [|reflexivity].
    destruct (OpenDB _); [|reflexivity].
    destruct done; reflexivity.
  - rewrite generate_unfold.
    destruct (GenerateKeyPairWithReader _ _ _) as [[priv|e] s]; [|reflexivity].
    destruct (libp2p_New _ _); [|reflexivity].
    destruct (OpenDB _); [|reflexivity].
    destruct done; reflexivity.
Qed.

End ServeFacts.

(** * Further properties of the code *)

(** ** parseAddrs: the list returned and the error returned *)

Section ParseAddrsResults.
Context {Multiaddr : Type} (NewMultiaddr : string -> Result Multiaddr).

#[local] Abbreviation resolve := (resolve NewMultiaddr).
#[local] Abbreviation visited := (visited NewMultiaddr).
#[local] Abbreviation unsplittable := (unsplittable NewMultiaddr).
#[local] Abbreviation wellformed := (wellformed NewMultiaddr).
#[local] Abbreviation parseAddrs := (parseAddrs NewMultiaddr).
#[local] Abbreviation parseAddrs_loop := (parseAddrs_loop NewMultiaddr).

Lemma is_Ok_resolve a : is_Ok (resolve a) = wellformed a.
Proof.
  unfold resolve, wellformed, fallback.
  destruct (NewMultiaddr a); [reflexivity|].
  destruct (Net.SplitHostPort a) as [[host port]|]; reflexivity.
Qed.

Lemma slot_is_Some a : is_Some (to_option (resolve a)) <-> wellformed a = true.
Proof.
  rewrite <- is_Ok_resolve. destruct (resolve a); cbn.
  - split; [done|]. intros _. by eexists.
  - split; [|done]. intros [? ?]. discriminate.
Qed.

Lemma unsplittable_not_wellformed a :
  unsplittable a = true -> wellformed a = false.
Proof.
  unfold unsplittable, wellformed, fallback.
  destruct (NewMultiaddr a); [done|].
  destruct (Net.SplitHostPort a) as [[host port]|]; done.
Qed.

(** Either the loop goes through every address, or there is a first address
    at which it returns. *)
Lemma first_unsplittable addrs :
  Forall (fun a => unsplittable a = false) addrs \/
  exists l1 a l2, addrs = l1 ++ a :: l2 /\
                  Forall (fun b => unsplittable b = false) l1 /\
                  unsplittable a = true.
Proof.
  induction addrs as [|a rest [IH | (l1 & b & l2 & -> & Hl1 & Hb)]].
  - left. constructor.
  - destruct (unsplittable a) eqn:Ha.
    + right. exists [], a, rest. by repeat split.
    + left. by constructor.
  - destruct (unsplittable a) eqn:Ha.
    + right. exists [], a, (l1 ++ b :: l2). by repeat split.
    + right. exists (a :: l1), b, l2. repeat split; [|done]. by constructor.
Qed.

Lemma visited_stop l1 a l2 :
  Forall (fun b => unsplittable b = false) l1 ->
  unsplittable a = true ->
  visited (l1 ++ a :: l2) = l1 ++ [a].
Proof.
  intros Hl1 Ha. induction Hl1 as [|b l1 Hb _ IH]; cbn [visited app].
  - rewrite Ha. reflexivity.
  - rewrite Hb, IH. reflexivity.
Qed.

Lemma visited_app l1 l2 :
  Forall (fun b => unsplittable b = false) l1 ->
  visited (l1 ++ l2) = l1 ++ visited l2.
Proof.
  induction 1 as [|b l1 Hb _ IH]; cbn [visited app]; [done|].
  rewrite Hb, IH. reflexivity.
Qed.

Lemma visited_nil l : visited l = [] <-> l = [].
Proof.
  destruct l as [|a l]; [done|]. cbn. destruct (unsplittable a); done.
Qed.

(** X1. The list that [parseAddrs] returns has one entry for each address
    given, whether an error is returned with it or not. *)
Theorem parseAddrs_length addrs :
  length (parseAddrs addrs).1 = length addrs.
Proof.
  unfold parseAddrs.
  assert (Hloop : forall l i maddrs err,
             length (parseAddrs_loop l i maddrs err).1 = length maddrs).
  { induction l as [|a rest IH]; intros i maddrs err; [reflexivity|].
    cbn [parseAddrs_loop].
    destruct (NewMultiaddr a) as [m|e]; cbn [error_of to_option].
    - rewrite IH. apply length_insert.
    - destruct (Net.SplitHostPort a) as [[host port]|serr].
      + rewrite IH, !length_insert. reflexivity.
      + apply length_insert. }
  rewrite Hloop. apply length_replicate.
Qed.

(** [parseAddrs] on a list whose first unsplittable address is [a]. *)
Lemma parseAddrs_at_unsplittable l1 a l2 :
  Forall (fun b => unsplittable b = false) l1 ->
  unsplittable a = true ->
  parseAddrs (l1 ++ a :: l2) =
  (((to_option ∘ resolve) <$> l1) ++ replicate (S (length l2)) None,
   error_of (NewMultiaddr a)).
Proof.
  intros Hl1 Ha.
  rewrite parseAddrs_spec, (visited_stop l1 a l2 Hl1 Ha), last_snoc.
  cbn [from_option].
  destruct (resolve_unsplittable NewMultiaddr a Ha) as [Hslot ->].
  f_equal. rewrite fmap_app, <- app_assoc. f_equal.
  cbn [fmap list_fmap compose]. rewrite Hslot.
  rewrite !length_app. cbn [length].
  replace (length l1 + S (length l2) - (length l1 + 1))%nat
    with (length l2) by lia.
  reflexivity.
Qed.

(** X2. At the first address that neither parses as a multiaddress nor
    splits as host:port, [parseAddrs] returns at once: the error is the one
    of the direct parse of that address, the entries before it hold what the
    addresses before it resolved to, and the entry of that address and all
    the entries after it are nil. *)
Theorem parseAddrs_stops l1 a l2 :
  Forall (fun b => unsplittable b = false) l1 ->
  unsplittable a = true ->
  exists e,
    NewMultiaddr a = Err e /\
    (parseAddrs (l1 ++ a :: l2)).2 = Some e /\
    (parseAddrs (l1 ++ a :: l2)).1
    = ((to_option ∘ resolve) <$> l1) ++ replicate (S (length l2)) None /\
    (forall i, (length l1 <= i)%nat -> (i < length (l1 ++ a :: l2))%nat ->
               (parseAddrs (l1 ++ a :: l2)).1 !! i = Some None).
Proof.
  intros Hl1 Ha. rewrite (parseAddrs_at_unsplittable l1 a l2 Hl1 Ha).
  cbn [fst snd]. unfold unsplittable in Ha.
  destruct (NewMultiaddr a) as [m|e]; [done|].
  exists e. split; [done|]. split; [done|]. split; [done|].
  intros i Hlo Hhi. rewrite length_app in Hhi. cbn [length] in Hhi.
  rewrite lookup_app_r by (rewrite length_fmap; lia).
  rewrite length_fmap. apply lookup_replicate_2. lia.
Qed.

(** X3. The list that [parseAddrs] returns has no nil entry exactly when
    every address is well formed (one of the two attempts succeeds on it),
    and then no error is returned: a malformed address that the error does
    not report still shows as a nil entry. *)
Theorem parseAddrs_no_nil addrs :
  (Forall is_Some (parseAddrs addrs).1 <->
   Forall (fun a => wellformed a = true) addrs) /\
  (Forall is_Some (parseAddrs addrs).1 -> (parseAddrs addrs).2 = None).
Proof.
  assert (Hclean : Forall (fun a => unsplittable a = false) addrs ->
                   (parseAddrs addrs).1 = (to_option ∘ resolve) <$> addrs).
  { intros Hgo. rewrite parseAddrs_spec, (visited_all _ addrs Hgo).
    cbn [fst]. rewrite Nat.sub_diag. apply app_nil_r. }
  assert (Hslots : Forall is_Some ((to_option ∘ resolve) <$> addrs) <->
                   Forall (fun a => wellformed a = true) addrs).
  { rewrite Forall_fmap. apply Forall_proper; [|done].
    intros a. apply slot_is_Some. }
  assert (Hsome : Forall is_Some (parseAddrs addrs).1 ->
                  Forall (fun a => unsplittable a = false) addrs).
  { intros Hall.
    destruct (first_unsplittable addrs)
      as [Hgo | (l1 & a & l2 & -> & Hl1 & Ha)]; [done|].
    rewrite (parseAddrs_at_unsplittable l1 a l2 Hl1 Ha) in Hall. cbn [fst replicate] in Hall.
    apply Forall_app in Hall as [_ Hall].
    apply Forall_cons in Hall as [[? ?] _]. discriminate. }
  split; [split|].
  - intros Hall. apply Hslots. rewrite <- Hclean by auto. done.
  - intros Hwf. rewrite Hclean; [by apply Hslots|].
    eapply Forall_impl; [exact Hwf|]. intros a Ha.
    apply (wellformed_resolve NewMultiaddr a Ha).
  - intros Hall. pose proof (Hsome Hall) as Hgo.
    rewrite Hclean in Hall by done. apply Hslots in Hall.
    rewrite parseAddrs_err, (visited_all _ addrs Hgo).
    destruct (last addrs) as [a|] eqn:Hlast; [|done]. cbn.
    apply last_Some_elem_of in Hlast.
    rewrite Forall_forall in Hall. specialize (Hall a Hlast).
    rewrite <- is_Ok_resolve in Hall. destruct (resolve a); done.
Qed.

(** X4. [parseAddrs] returns no error exactly when every address parses or
    splits and the last address is well formed: the errors of the addresses
    before the last one do not count. *)
Theorem parseAddrs_no_error addrs :
  (parseAddrs addrs).2 = None <->
  Forall (fun a => unsplittable a = false) addrs /\
  (forall a, last addrs = Some a -> wellformed a = true).
Proof.
  destruct (first_unsplittable addrs)
    as [Hgo | (l1 & a & l2 & -> & Hl1 & Ha)].
  - rewrite parseAddrs_err, (visited_all _ addrs Hgo).
    destruct (last addrs) as [a|]; cbn.
    + pose proof (is_Ok_resolve a) as Hok. split.
      * intros Hnone. split; [done|]. intros ? [= <-].
        rewrite <- Hok. destruct (resolve a); done.
      * intros [_ Hlast]. specialize (Hlast a eq_refl).
        rewrite <- Hok in Hlast. destruct (resolve a); done.
    + split; [|done]. intros _. split; [done|]. intros ? [=].
  - rewrite (parseAddrs_at_unsplittable l1 a l2 Hl1 Ha). cbn [snd].
    split.
    { unfold unsplittable in Ha. destruct (NewMultiaddr a); done. }
    intros [Hgo _].
    apply Forall_app in Hgo as [_ Hgo]. apply Forall_cons in Hgo as [Hgo _].
    congruence.
Qed.

(** X5. After addresses that all parse or split, [parseAddrs] goes on as if
    it started anew: the list for [l1 ++ l2] is the list for [l1] followed by
    the list for [l2], and the error is the one for [l2], whatever the error
    for [l1] was, unless [l2] is empty. *)
Theorem parseAddrs_app l1 l2 :
  Forall (fun b => unsplittable b = false) l1 ->
  parseAddrs (l1 ++ l2) =
  ((parseAddrs l1).1 ++ (parseAddrs l2).1,
   match l2 with [] => (parseAddrs l1).2 | _ => (parseAddrs l2).2 end).
Proof.
  intros Hl1. rewrite !parseAddrs_spec. cbn [fst snd].
  rewrite (visited_app l1 l2 Hl1), (visited_all _ l1 Hl1), Nat.sub_diag.
  cbn [replicate]. rewrite app_nil_r.
  f_equal.
  - rewrite fmap_app, <- app_assoc. do 2 f_equal.
    rewrite !length_app. f_equal. lia.
  - destruct l2 as [|b l2]; [by rewrite app_nil_r|].
    rewrite last_app.
    destruct (last (visited (b :: l2))) as [c|] eqn:Hlast; [reflexivity|].
    apply last_None in Hlast. apply (proj1 (visited_nil _)) in Hlast.
    discriminate.
Qed.

End ParseAddrsResults.

Lemma parseAddrs_stops_witness :
  let addrs := ["/ip4/0.0.0.0/tcp/4040"] ++ "foo" :: [":9999"] in
  exists e,
    Multiaddr.NewMultiaddr "foo" = Err e /\
    (parseAddrs Multiaddr.NewMultiaddr addrs).2 = Some e /\
    (parseAddrs Multiaddr.NewMultiaddr addrs).1
    = ((to_option ∘ resolve Multiaddr.NewMultiaddr)
         <$> ["/ip4/0.0.0.0/tcp/4040"]) ++ replicate 2 None /\
    (forall i, (1 <= i)%nat -> (i < 3)%nat ->
               (parseAddrs Multiaddr.NewMultiaddr addrs).1 !! i = Some None).
Proof.
  apply (parseAddrs_stops Multiaddr.NewMultiaddr
           ["/ip4/0.0.0.0/tcp/4040"] "foo" [":9999"]).
  - repeat constructor.
  - reflexivity.
Defined.

Lemma parseAddrs_app_witness :
  parseAddrs Multiaddr.NewMultiaddr (["localhost:9999"] ++ [":9999"])
  = ((parseAddrs Multiaddr.NewMultiaddr ["localhost:9999"]).1
       ++ (parseAddrs Multiaddr.NewMultiaddr [":9999"]).1,
     (parseAddrs Multiaddr.NewMultiaddr [":9999"]).2).
Proof.
  apply (parseAddrs_app Multiaddr.NewMultiaddr ["localhost:9999"] [":9999"]).
  repeat constructor.
Defined.

(** ** newLogger: what it does besides returning a logger *)

Section NewLoggerResults.
Context {Entropy : Type}.
Context (openSinks : list string -> option error).

#[local] Abbreviation World := (World (Entropy := Entropy)).
#[local] Abbreviation newLogger := (newLogger (Entropy := Entropy) openSinks).
#[local] Abbreviation globalPreRun :=
  (globalPreRun (Entropy := Entropy) openSinks).

(** [newLogger] step by step. *)
Lemma newLogger_unfold debug logfile (w : World) :
  let w3 := emit (EvGetenv "ORBITDB_DEBUG")
              (emit (EvGetenv "LIBP2P_DEBUG") (emit (EvGetenv "BERTY_DEBUG") w)) in
  let paths := if String.eqb logfile "" then ["stderr"] else [logfile] in
  exists config,
    OutputPaths config = paths /\
    Encoding config = (if String.eqb logfile "" then "console" else "json") /\
    DisableStacktrace config = String.eqb logfile "" /\
    newLogger debug logfile w =
    match openSinks paths with
    | Some e => (Err (WithCode ErrCode_TODO e), w3)
    | None =>
        (Ok {| logger_config := config |},
         let w4 := if switch_on w "LIBP2P_DEBUG"
                   then emit EvSetDebugLogging w3 else w3 in
         if switch_on w "ORBITDB_DEBUG"
         then emit (EvReplaceGlobals {| logger_config := config |}) w4 else w4)
    end.
Proof.
  intros w3 paths. unfold Rdvp.newLogger.
  rewrite !parseBoolFromEnv_unfold. cbn [env emit]. fold w3.
  unfold switch_on.
  set (berty := bool_decide (truthy (default "" (env w !! "BERTY_DEBUG")))).
  set (libp2p := bool_decide (truthy (default "" (env w !! "LIBP2P_DEBUG")))).
  set (orbitdb := bool_decide (truthy (default "" (env w !! "ORBITDB_DEBUG")))).
  set (config := if berty || debug || orbitdb || libp2p then _ else _).
  exists config.
  assert (Hpaths : OutputPaths config = paths).
  { subst config paths.
    destruct (berty || debug || orbitdb || libp2p), (String.eqb logfile "");
      reflexivity. }
  split; [exact Hpaths|]. split; [|split].
  - subst config.
    destruct (berty || debug || orbitdb || libp2p), (String.eqb logfile "");
      reflexivity.
  - subst config.
    destruct (berty || debug || orbitdb || libp2p), (String.eqb logfile "");
      reflexivity.
  - unfold Build. rewrite Hpaths. destruct (openSinks paths); reflexivity.
Qed.

(** X6. Besides reading the three switches, [newLogger] acts on the process
    only in two ways: it calls [ipfs_log.SetDebugLogging] exactly when it
    succeeds and LIBP2P_DEBUG is true, and then [zap.ReplaceGlobals], with
    the logger it returns, exactly when it succeeds and ORBITDB_DEBUG is
    true.  The debug flag and BERTY_DEBUG cause neither call, and a failing
    [newLogger] makes neither. *)
Theorem newLogger_effects debug logfile (w : World) :
  let r := (newLogger debug logfile w).1 in
  let w' := (newLogger debug logfile w).2 in
  env w' = env w /\ entropy w' = entropy w /\
  trace w' =
  trace w ++ (EvGetenv <$> debug_switches) ++
  match r with
  | Ok logger =>
      (if switch_on w "LIBP2P_DEBUG" then [EvSetDebugLogging] else []) ++
      (if switch_on w "ORBITDB_DEBUG" then [EvReplaceGlobals logger] else [])
  | Err _ => []
  end.
Proof.
  destruct (newLogger_unfold debug logfile w) as (config & _ & _ & _ & ->).
  cbv zeta.
  destruct (openSinks _); cbn [fst snd].
  - cbn. rewrite <- !app_assoc. done.
  - destruct (switch_on w "LIBP2P_DEBUG"), (switch_on w "ORBITDB_DEBUG");
      cbn; rewrite <- ?app_assoc; done.
Qed.

(** X7. [newLogger] writes to the log file alone, in the JSON encoding, when
    a log file is given, and to the standard error, in the console encoding
    and without stack traces, when none is; it fails exactly when that
    output cannot be opened, with the error of the opening under the tag
    [errcode.TODO]. *)
Theorem newLogger_output debug logfile (w : World) :
  let paths := if String.eqb logfile "" then ["stderr"] else [logfile] in
  match (newLogger debug logfile w).1 with
  | Ok logger =>
      openSinks paths = None /\
      OutputPaths (logger_config logger) = paths /\
      Encoding (logger_config logger)
      = (if String.eqb logfile "" then "console" else "json") /\
      DisableStacktrace (logger_config logger) = String.eqb logfile ""
  | Err e =>
      exists e0, openSinks paths = Some e0 /\ e = WithCode ErrCode_TODO e0
  end.
Proof.
  destruct (newLogger_unfold debug logfile w) as (config & Hp & He & Hd & ->).
  cbv zeta. destruct (openSinks _) as [e0|] eqn:Hsinks; cbn [fst].
  - by exists e0.
  - done.
Qed.

(** What [globalPreRun] adds to the calls made has nothing to do with the
    host, the database or the service. *)
Lemma globalPreRun_trace debug logfile (w : World) :
  exists pre,
    trace (globalPreRun debug logfile w).2 = trace w ++ pre /\
    Forall (fun ev => is_resource ev = false) pre.
Proof.
  unfold Rdvp.globalPreRun.
  destruct (newLogger_unfold debug logfile (emit EvSeed w))
    as (config & _ & _ & _ & ->).
  cbv zeta. destruct (openSinks _); cbn [snd].
  - eexists. split; [cbn; rewrite <- !app_assoc; reflexivity|].
    repeat constructor.
  - destruct (switch_on _ "LIBP2P_DEBUG"), (switch_on _ "ORBITDB_DEBUG");
      (eexists; split; [cbn; rewrite <- !app_assoc; reflexivity|];
       repeat constructor).
Qed.

End NewLoggerResults.

(** ** genkey and serve *)

Section CommandResults.
Context {Multiaddr PrivKey Entropy Host DB : Type}.
Context (NewMultiaddr : string -> Result Multiaddr).
Context (UnmarshalPrivateKey : list ascii -> Result PrivKey).
Context (MarshalPrivateKey : PrivKey -> Result (list ascii)).
Context (GenerateKeyPairWithReader :
           KeyType -> Z -> Entropy -> Result PrivKey * Entropy).
Context (libp2p_New : list (option Multiaddr) -> PrivKey -> Result Host).
Context (OpenDB : string -> Result DB).
Context (openSinks : list string -> option error).

#[local] Abbreviation World := (World (Entropy := Entropy)).
#[local] Abbreviation identity :=
  (identity UnmarshalPrivateKey GenerateKeyPairWithReader).
#[local] Abbreviation genkey_Exec :=
  (genkey_Exec MarshalPrivateKey GenerateKeyPairWithReader).
#[local] Abbreviation globalPreRun :=
  (globalPreRun (Entropy := Entropy) openSinks).
#[local] Abbreviation serve_Exec :=
  (serve_Exec NewMultiaddr UnmarshalPrivateKey GenerateKeyPairWithReader
              libp2p_New OpenDB openSinks).

(** [genkey], step by step. *)
Lemma genkey_Exec_unfold (w : World) :
  genkey_Exec w =
  let '(r, s) := GenerateKeyPairWithReader RSA 2048 (entropy w) in
  let w1 := emit (EvGenerateKeyPair RSA 2048)
                 {| env := env w; entropy := s; trace := trace w |} in
  match r with
  | Err e => (Err (WithCode ErrCode_TODO e), w1)
  | Ok priv =>
      let w2 := emit EvMarshalPrivateKey w1 in
      match MarshalPrivateKey priv with
      | Err e => (Err (WithCode ErrCode_TODO e), w2)
      | Ok kBytes =>
          (Ok tt, emit (EvPrintln (Base64.EncodeToString kBytes)) w2)
      end
  end.
Proof.
  unfold Rdvp.genkey_Exec, bind. rewrite generate_unfold.
  destruct (GenerateKeyPairWithReader RSA 2048 (entropy w)) as [[priv|e] s];
    [|reflexivity].
  rewrite serialize_unfold. destruct (MarshalPrivateKey priv); reflexivity.
Qed.

(** X8. [genkey] succeeds and prints one line exactly when the key is
    generated and marshalled: the line is the base64 text of the marshalled
    key, which decodes to those bytes.  When the generation or the
    marshalling fails, [genkey] prints nothing and returns the error of the
    failing step under the tag [errcode.TODO].  In no case does [genkey]
    read an environment switch. *)
Theorem genkey_Exec_prints (w : World) :
  exists calls,
    trace (genkey_Exec w).2 = trace w ++ calls /\
    consulted calls = [] /\
    match (GenerateKeyPairWithReader RSA 2048 (entropy w)).1 with
    | Err e =>
        (genkey_Exec w).1 = Err (WithCode ErrCode_TODO e) /\
        printed calls = []
    | Ok priv =>
        match MarshalPrivateKey priv with
        | Err e =>
            (genkey_Exec w).1 = Err (WithCode ErrCode_TODO e) /\
            printed calls = []
        | Ok kBytes =>
            (genkey_Exec w).1 = Ok tt /\
            printed calls = [Base64.EncodeToString kBytes] /\
            Base64.DecodeString (Base64.EncodeToString kBytes) = Ok kBytes
        end
    end.
Proof.
  rewrite genkey_Exec_unfold.
  destruct (GenerateKeyPairWithReader RSA 2048 (entropy w)) as [[priv|e] s];
    cbv zeta; cbn [fst].
  - destruct (MarshalPrivateKey priv) as [kBytes|e] eqn:Hm.
    + exists [EvGenerateKeyPair RSA 2048; EvMarshalPrivateKey;
              EvPrintln (Base64.EncodeToString kBytes)].
      split; [cbn; rewrite <- !app_assoc; reflexivity|].
      split; [reflexivity|]. split; [reflexivity|]. split; [reflexivity|].
      apply DecodeString_EncodeToString.
    + exists [EvGenerateKeyPair RSA 2048; EvMarshalPrivateKey].
      split; [cbn; rewrite <- !app_assoc; reflexivity|]. done.
  - exists [EvGenerateKeyPair RSA 2048]. done.
Qed.

(** X9. The line that [genkey] prints, given to serve with [-pk], is loaded
    as the key that [genkey] generated, and serve generates no key of its
    own; this for a key library that reads back the bytes it writes, and
    for a line that is not empty. *)
Theorem genkey_then_serve (w : World) :
  (forall k kBytes,
      MarshalPrivateKey k = Ok kBytes -> UnmarshalPrivateKey kBytes = Ok k) ->
  (genkey_Exec w).1 = Ok tt ->
  exists priv line,
    (GenerateKeyPairWithReader RSA 2048 (entropy w)).1 = Ok priv /\
    printed (trace (genkey_Exec w).2) = printed (trace w) ++ [line] /\
    (line <> "" ->
     forall w0 : World,
       (identity (serveFlagsPK (Some line)) w0).1 = Ok priv /\
       entropy (identity (serveFlagsPK (Some line)) w0).2 = entropy w0).
Proof.
  intros Hcodec. rewrite genkey_Exec_unfold.
  destruct (GenerateKeyPairWithReader RSA 2048 (entropy w)) as [[priv|e] s];
    cbv zeta; [|discriminate].
  destruct (MarshalPrivateKey priv) as [kBytes|e] eqn:Hm; [|discriminate].
  intros _. exists priv, (Base64.EncodeToString kBytes).
  split; [reflexivity|]. split.
  { cbn [snd trace emit]. unfold printed.
    rewrite <- !app_assoc, omap_app. reflexivity. }
  intros Hline w0. unfold Rdvp.identity, serveFlagsPK, flag_String.
  destruct (String.eqb_spec (Base64.EncodeToString kBytes) "") as [?|_];
    [done|]. cbn [negb].
  rewrite load_unfold, DecodeString_EncodeToString. cbv zeta.
  rewrite (Hcodec priv kBytes Hm). done.
Qed.

(** What getting the identity adds to the calls made has nothing to do with
    the host, the database or the service. *)
Lemma identity_trace pk (w : World) :
  exists ids,
    trace (identity pk w).2 = trace w ++ ids /\
    Forall (fun ev => is_resource ev = false) ids.
Proof.
  unfold Rdvp.identity. destruct (negb _).
  - rewrite load_unfold. destruct (Base64.DecodeString pk) as [kBytes|e].
    + exists [EvDecodeString pk; EvUnmarshalPrivateKey kBytes].
      split; [|repeat constructor].
      destruct (UnmarshalPrivateKey kBytes); cbn; by rewrite <- app_assoc.
    + exists [EvDecodeString pk]. split; [done|repeat constructor].
  - rewrite generate_unfold.
    destruct (GenerateKeyPairWithReader _ _ _) as [r s].
    exists [EvGenerateKeyPair RSA 2048]. split; [done|repeat constructor].
Qed.

(** X10. When [parseAddrs] returns an error for the listeners, serve returns
    that error under the tag [errcode.TODO] and has done nothing but set up
    the logger and cancel its context: no key is read or generated, no host
    is created and no database is opened. *)
Theorem serve_Exec_bad_listeners globalDebug globalLogToFile db l pk done
    (w w1 : World) logger e :
  globalPreRun globalDebug globalLogToFile w = (Ok logger, w1) ->
  (parseAddrs NewMultiaddr (Strings.Split (serveFlagsListeners l) ",")).2
  = Some e ->
  serve_Exec globalDebug globalLogToFile db l pk done w
  = (Err (WithCode ErrCode_TODO e), emit EvCancel w1).
Proof.
  intros Hpre Herr. unfold Rdvp.serve_Exec, bind, orTODO, defer, fail.
  rewrite Hpre.
  destruct (parseAddrs _ _) as [listeners err]. cbn [snd] in Herr.
  subst err. reflexivity.
Qed.

Lemma no_resource_calls l :
  Forall (fun ev => is_resource ev = false) l ->
  Forall (fun ev => is_release ev = false) l /\
  (EvLogHostInfo ∉ l) /\ (EvNewRendezvousService ∉ l).
Proof.
  intros Hl. split; [|split].
  - eapply Forall_impl; [exact Hl|]. by intros [].
  - intros Hin. rewrite Forall_forall in Hl. by specialize (Hl _ Hin).
  - intros Hin. rewrite Forall_forall in Hl. by specialize (Hl _ Hin).
Qed.

Ltac calls_solver :=
  rewrite ?elem_of_app, ?elem_of_cons, ?elem_of_nil;
  unfold not in *; intuition (discriminate || eauto).

(** X11. serve gives back what it holds when it returns, with or without an
    error: the calls it makes end with the closing of the database if it
    has opened one (and started the service), then the closing of the host
    if it has created one (and logged it), then the cancellation of its
    context, which is left out only when the set-up of the logger has
    failed.  No such call is made earlier, and none for what serve does not
    hold. *)
Theorem serve_Exec_releases globalDebug globalLogToFile db l pk done
    (w : World) :
  exists body closes,
    trace (serve_Exec globalDebug globalLogToFile db l pk done w).2
    = trace w ++ body ++ closes /\
    Forall (fun ev => is_release ev = false) body /\
    closes ∈ [[]; [EvCancel]; [EvCloseHost; EvCancel];
              [EvCloseDB; EvCloseHost; EvCancel]] /\
    (EvCloseHost ∈ closes <-> EvLogHostInfo ∈ body) /\
    (EvCloseDB ∈ closes <-> EvNewRendezvousService ∈ body) /\
    (closes = [] <->
     is_Ok (globalPreRun globalDebug globalLogToFile w).1 = false).
Proof.
  unfold Rdvp.serve_Exec, bind, orTODO, defer, call, fail, ret.
  destruct (globalPreRun_trace openSinks globalDebug globalLogToFile w)
    as (pre & Hpre & Hq).
  destruct (no_resource_calls pre Hq) as (Hrel & Hlog & Hsvc).
  destruct (globalPreRun _ _ w) as [[logger|e] w1]; cbn [fst snd] in *.
  2:{ exists pre, []. rewrite Hpre, app_nil_r.
      split; [done|]. split; [done|]. split; [calls_solver|].
      split; [calls_solver|]. split; [calls_solver|]. done. }
  destruct (parseAddrs _ _) as [listeners [err|]].
  { exists pre, [EvCancel]. cbn [snd trace emit]. rewrite Hpre.
    split; [by rewrite <- app_assoc|]. split; [done|].
    split; [calls_solver|]. split; [calls_solver|]. split; [calls_solver|]. done. }
  destruct (identity_trace (serveFlagsPK pk) w1) as (ids & Hids & Hqi).
  destruct (no_resource_calls ids Hqi) as (Hreli & Hlogi & Hsvci).
  destruct (identity _ w1) as [[priv|e] w2]; cbn [fst snd] in *.
  2:{ exists (pre ++ ids), [EvCancel]. cbn [snd trace emit].
      rewrite Hids, Hpre.
      split; [by rewrite <- !app_assoc|].
      split; [by apply Forall_app|].
      split; [calls_solver|]. split; [calls_solver|]. split; [calls_solver|]. done. }
  destruct (libp2p_New listeners priv) as [host|e].
  2:{ exists (pre ++ ids ++ [EvNewHost]), [EvCancel]. cbn [snd trace emit].
      rewrite Hids, Hpre.
      split; [by rewrite <- !app_assoc|].
      split; [by repeat (apply Forall_app; split); try done;
                 repeat constructor|].
      split; [calls_solver|]. split; [calls_solver|]. split; [calls_solver|]. done. }
  destruct (OpenDB _) as [d|e].
  2:{ exists (pre ++ ids ++ [EvNewHost; EvLogHostInfo;
                            EvOpenDB (serveFlagsURN db)]),
             [EvCloseHost; EvCancel].
      cbn [snd trace emit]. rewrite Hids, Hpre.
      split; [by rewrite <- !app_assoc|].
      split; [by repeat (apply Forall_app; split); try done;
                 repeat constructor|].
      split; [calls_solver|]. split; [calls_solver|]. split; [calls_solver|]. done. }
  exists (pre ++ ids ++ [EvNewHost; EvLogHostInfo;
                        EvOpenDB (serveFlagsURN db); EvNewRendezvousService]),
         [EvCloseDB; EvCloseHost; EvCancel].
  split.
  { destruct (ctx_Err done); cbn [snd trace emit]; rewrite Hids, Hpre;
      by rewrite <- !app_assoc. }
  split; [by repeat (apply Forall_app; split); try done; repeat constructor|].
  split; [calls_solver|]. split; [calls_solver|]. split; [calls_solver|]. done.
Qed.

(** X12. An error with which serve returns is never taken by [main] for the
    clean end of the process: as the first value returned to the process it
    is fatal, also when it is [context.Canceled] under its tag.  And serve
    returns without an error only if its context is found active after
    [<-ctx.Done()]. *)
Theorem serve_Exec_error_fatal globalDebug globalLogToFile db l pk done
    (w : World) :
  match (serve_Exec globalDebug globalLogToFile db l pk done w).1 with
  | Ok _ => done = CtxActive
  | Err e =>
      tag e = Some ErrCode_TODO /\
      forall rest, main (Some e :: rest) = Fatal e /\
                   exit_status (main (Some e :: rest)) = 1
  end.
Proof.
  pose proof (serve_Exec_errors_tagged NewMultiaddr UnmarshalPrivateKey
                GenerateKeyPairWithReader libp2p_New OpenDB openSinks
                globalDebug globalLogToFile db l pk done w) as Htag.
  destruct (serve_Exec _ _ _ _ _ _ _).1 as [?|e]; [exact Htag|].
  split; [exact Htag|]. intros rest.
  destruct e; try discriminate. done.
Qed.

(** X13. When the logger is set up, the listeners are parsed without error,
    the identity is got, the host is created and the database is opened,
    serve starts the service and waits; what it returns then is the error
    of its context under the tag [errcode.TODO], and its calls are in this
    order: host, log, database, service, and then the three releases. *)
Theorem serve_Exec_serves globalDebug globalLogToFile db l pk done
    (w w1 w2 : World) logger listeners priv host d :
  globalPreRun globalDebug globalLogToFile w = (Ok logger, w1) ->
  parseAddrs NewMultiaddr (Strings.Split (serveFlagsListeners l) ",")
  = (listeners, None) ->
  identity (serveFlagsPK pk) w1 = (Ok priv, w2) ->
  libp2p_New listeners priv = Ok host ->
  OpenDB (serveFlagsURN db) = Ok d ->
  (serve_Exec globalDebug globalLogToFile db l pk done w).1
  = match ctx_Err done with
    | Some err => Err (WithCode ErrCode_TODO err)
    | None => Ok tt
    end /\
  trace (serve_Exec globalDebug globalLogToFile db l pk done w).2
  = trace w2 ++ [EvNewHost; EvLogHostInfo; EvOpenDB (serveFlagsURN db);
                 EvNewRendezvousService; EvCloseDB; EvCloseHost; EvCancel].
Proof.
  intros Hpre Hparse Hid Hhost Hdb.
  unfold Rdvp.serve_Exec, bind, orTODO, defer, call, fail, ret.
  rewrite Hpre, Hparse, Hid, Hhost, Hdb.
  destruct (ctx_Err done); cbn; rewrite <- !app_assoc; done.
Qed.

End CommandResults.

Lemma genkey_then_serve_witness :
  let k0 := {| Crypto.k := replicate 64 "000"%char; Crypto.k_size := I |} in
  let w := {| env := ∅; entropy := tt; trace := [] |} in
  exists priv line,
    (one_key k0 RSA 2048 (entropy w)).1 = Ok priv /\
    printed (trace (genkey_Exec Crypto.MarshalPrivateKey (one_key k0) w).2)
    = printed (trace w) ++ [line] /\
    (line <> "" ->
     forall w0 : World (Entropy := unit),
       (identity Crypto.UnmarshalPrivateKey (one_key k0)
                 (serveFlagsPK (Some line)) w0).1 = Ok priv /\
       entropy (identity Crypto.UnmarshalPrivateKey (one_key k0)
                         (serveFlagsPK (Some line)) w0).2 = entropy w0).
Proof.
  intros k0 w.
  apply (genkey_then_serve Crypto.UnmarshalPrivateKey Crypto.MarshalPrivateKey
           (one_key k0) w Crypto_codec).
  vm_compute. reflexivity.
Defined.

Lemma serve_Exec_bad_listeners_witness :
  let k0 := {| Crypto.k := replicate 64 "000"%char; Crypto.k_size := I |} in
  let w := {| env := ∅; entropy := tt; trace := [] |} in
  serve_Exec Multiaddr.NewMultiaddr Crypto.UnmarshalPrivateKey (one_key k0)
             (fun _ _ => Ok tt) (fun _ => Ok tt) (fun _ => None)
             false "" None (Some "localhost:9999") None CtxCanceled w
  = (Err (WithCode ErrCode_TODO
            (MultiaddrError "/ip4/localhost/tcp/9999"
                            "invalid value localhost for protocol ip4")),
     emit EvCancel (globalPreRun (fun _ => None) false "" w).2).
Proof.
  intros k0 w.
  apply (serve_Exec_bad_listeners Multiaddr.NewMultiaddr
           Crypto.UnmarshalPrivateKey (one_key k0)
           (fun _ _ => Ok tt) (fun _ => Ok tt) (fun _ => None)
           false "" None (Some "localhost:9999") None CtxCanceled w
           (globalPreRun (fun _ => None) false "" w).2
           {| logger_config := SetLevel InfoLevel {|
                Level_ := DebugLevel; Development := true;
                DisableStacktrace := true; Encoding := "console";
                EncodeLevel := CapitalColorLevelEncoder;
                OutputPaths := ["stderr"] |} |}).
  - vm_compute. reflexivity.
  - vm_compute. reflexivity.
Defined.

Lemma serve_Exec_serves_witness :
  let k0 := {| Crypto.k := replicate 64 "000"%char; Crypto.k_size := I |} in
  let w := {| env := ∅; entropy := tt; trace := [] |} in
  let w1 := (globalPreRun (fun _ => None) false "" w).2 in
  let w2 := (identity Crypto.UnmarshalPrivateKey (one_key k0)
                      (serveFlagsPK None) w1).2 in
  let run := serve_Exec Multiaddr.NewMultiaddr Crypto.UnmarshalPrivateKey
               (one_key k0) (fun _ _ => Ok tt) (fun _ => Ok tt)
               (fun _ => None) false "" None None None CtxCanceled w in
  run.1 = Err (WithCode ErrCode_TODO Canceled) /\
  trace run.2
  = trace w2 ++ [EvNewHost; EvLogHostInfo; EvOpenDB ":memory:";
                 EvNewRendezvousService; EvCloseDB; EvCloseHost; EvCancel].
Proof.
  intros k0 w w1 w2 run.
  apply (serve_Exec_serves Multiaddr.NewMultiaddr Crypto.UnmarshalPrivateKey
           (one_key k0) (fun _ _ => Ok tt) (fun _ => Ok tt) (fun _ => None)
           false "" None None None CtxCanceled w w1 w2
           {| logger_config := SetLevel InfoLevel {|
                Level_ := DebugLevel; Development := true;
                DisableStacktrace := true; Encoding := "console";
                EncodeLevel := CapitalColorLevelEncoder;
                OutputPaths := ["stderr"] |} |}
           [Some [Multiaddr.P_ip4 0 0 0 0; Multiaddr.P_tcp 4040];
            Some [Multiaddr.P_ip4 0 0 0 0; Multiaddr.P_udp 4141;
                  Multiaddr.P_quic]]
           k0 tt tt).
  - vm_compute. reflexivity.
  - vm_compute. reflexivity.
  - vm_compute. reflexivity.
  - reflexivity.
  - reflexivity.
Defined.

(** ** logHostInfo *)

Section LogHostInfoFacts.
Context {ID Multiaddr : Type}.
Context (ID_String : ID -> string).
Context (AddrInfoToP2pAddrs : ID -> list Multiaddr -> Result (list Multiaddr)).

Lemma logHostInfo_loop_spec maddrs : forall fields : list (Field Multiaddr),
  logHostInfo_loop maddrs fields = fields ++ (zap_Stringer "maddr" <$> maddrs).
Proof.
  induction maddrs as [|maddr rest IH]; intros fields; cbn.
  - by rewrite app_nil_r.
  - rewrite IH, <- app_assoc. reflexivity.
Qed.

(** X14. [logHostInfo] logs one entry, "host started": its first field is
    the ID of the host, and the fields after it are the p2p addresses of
    the host, one field for each and in their order.  When the addresses
    cannot be made, the error is dropped and the entry has the ID alone. *)
Theorem logHostInfo_fields (host_ID : ID) (host_Addrs : list Multiaddr) :
  (logHostInfo ID_String AddrInfoToP2pAddrs host_ID host_Addrs).1
  = "host started" /\
  (logHostInfo ID_String AddrInfoToP2pAddrs host_ID host_Addrs).2
  = zap_String "host ID (local)" (ID_String host_ID)
    :: match AddrInfoToP2pAddrs host_ID host_Addrs with
       | Ok maddrs => zap_Stringer "maddr" <$> maddrs
       | Err _ => []
       end.
Proof.
  unfold logHostInfo. cbn [fst snd]. split; [reflexivity|].
  destruct (AddrInfoToP2pAddrs host_ID host_Addrs) as [maddrs|e];
    [|reflexivity].
  rewrite logHostInfo_loop_spec. reflexivity.
Qed.

End LogHostInfoFacts.

(** ** The process under an interrupt *)

Section InterruptFacts.
Context {Multiaddr PrivKey Entropy Host DB : Type}.
Context (NewMultiaddr : string -> Result Multiaddr).
Context (UnmarshalPrivateKey : list ascii -> Result PrivKey).
Context (GenerateKeyPairWithReader :
           KeyType -> Z -> Entropy -> Result PrivKey * Entropy).
Context (libp2p_New : list (option Multiaddr) -> PrivKey -> Result Host).
Context (OpenDB : string -> Result DB).
Context (openSinks : list string -> option error).

#[local] Abbreviation serve_Exec :=
  (serve_Exec NewMultiaddr UnmarshalPrivateKey GenerateKeyPairWithReader
              libp2p_New OpenDB openSinks).

(** Whatever the flags and the state of the process, serve interrupted by a
    signal ends in [log.Fatal]: the signal handler returns a
    [run.SignalError] first, and what serve returns after it is an error
    under a tag, which would be fatal as well, had it come first.  No actor
    returns [context.Canceled] itself before the context is cancelled. *)
Lemma serve_interrupted_fatal globalDebug globalLogToFile db l pk sig
    (w : World (Entropy := Entropy)) :
  let serve done :=
    error_of (serve_Exec globalDebug globalLogToFile db l pk done w).1 in
  main_interrupted sig serve = Fatal (SignalError sig) /\
  exit_status (main_interrupted sig serve) = 1 /\
  exists e, serve CtxCanceled = Some e /\ tag e = Some ErrCode_TODO /\
            main [serve CtxCanceled;
                  SignalHandler_execute (ContextDone CtxCanceled)] = Fatal e.
Proof.
  intros serve. split; [reflexivity|]. split; [reflexivity|]. subst serve.
  cbv beta.
  pose proof (serve_Exec_errors_tagged NewMultiaddr UnmarshalPrivateKey
                GenerateKeyPairWithReader libp2p_New OpenDB openSinks
                globalDebug globalLogToFile db l pk CtxCanceled w) as Htag.
  destruct (serve_Exec _ _ _ _ _ _ _).1 as [?|e]; [discriminate|].
  exists e. split; [reflexivity|]. split; [exact Htag|].
  destruct e; try discriminate. reflexivity.
Qed.

End InterruptFacts.

(** C2. serve with its default flags, interrupted by SIGINT while it waits:
    the signal handler returns [run.SignalError] first, and serve, its
    context cancelled, returns [context.Canceled] under the tag
    [errcode.TODO].  [main] finds neither to be [context.Canceled]: it calls
    [log.Fatal] and the process exits with status 1, whichever of the two
    values is taken for the first. *)
Theorem main_interrupted_serve :
  let k0 := {| Crypto.k := replicate 64 "000"%char; Crypto.k_size := I |} in
  let w := {| env := ∅; entropy := tt; trace := [] |} in
  let serve done :=
    error_of (serve_Exec Multiaddr.NewMultiaddr Crypto.UnmarshalPrivateKey
                (one_key k0) (fun _ _ => Ok tt) (fun _ => Ok tt)
                (fun _ => None) false "" None None None done w).1 in
  serve CtxCanceled = Some (WithCode ErrCode_TODO Canceled) /\
  main_interrupted os_Interrupt serve = Fatal (SignalError 2) /\
  exit_status (main_interrupted os_Interrupt serve) = 1 /\
  main [serve CtxCanceled; SignalHandler_execute (ContextDone CtxCanceled)]
  = Fatal (WithCode ErrCode_TODO Canceled) /\
  main [Some Canceled] = Returns.
Proof.
  intros k0 w serve. subst serve.
  split; [vm_compute; reflexivity|]. split; [reflexivity|].
  split; [reflexivity|]. split; [vm_compute; reflexivity|]. reflexivity.
Qed.
